(** * DemoMan: the demo store and the highlight filter

    A shallow embedding of [src/Demos.ts] (sidecar annotation file, header
    reader, demo cache, rename, directory scan), of the name check of the
    rename dialog, and of the highlight filter of
    [src/views/demoDetails/Highlights.tsx].

    Conventions.
    - JavaScript strings are modelled as byte strings ([string]); every
      literal the code compares against is ASCII.
    - Integers that the code holds in a JavaScript number are modelled in
      [Z]; floats are carried as [spec_float] and never computed with.
    - A thrown exception is the [Throw] result; [try]/[catch] is [catch].
    - Node's [fs] is modelled by a table of nodes indexed by path; Node's
      [path], [JSON] and [RegExp] are taken as parameters of the sections
      that use them ([Path] gives the POSIX instance used in examples). *)

From Stdlib Require Import ZArith Strings.Ascii Strings.String Strings.Byte Floats.SpecFloat.
From stdpp Require Import base strings gmap list fin_maps.

Set Warnings "-register-all".

Open Scope string_scope.
Open Scope list_scope.
Open Scope Z_scope.

(* ===================================================================== *)
(** ** JavaScript values and exceptions *)
(* ===================================================================== *)

Module JS.

(** What the code can throw.  A Node system error carries its [code]. *)
Inductive error : Type :=
| SystemError (code : string)
| InvalidDemoFileError
| RangeError
| TypeError
| SyntaxError.

Inductive result (A : Type) : Type :=
| Ok (a : A)
| Throw (e : error).
Arguments Ok {A} a.
Arguments Throw {A} e.

(** [e.code === c]; only system errors have a code. *)
Definition has_code (e : error) (c : string) : bool :=
  match e with
  | SystemError c' => bool_decide (c' = c)
  | _ => false
  end.
Arguments has_code : simpl never.

(** Values produced by [JSON.parse]. *)
Inductive json : Type :=
| JNull
| JBool (b : bool)
| JNumber (f : spec_float)
| JString (s : string)
| JArray (items : list json)
| JObject (fields : list (string * json)).

(** ToBoolean on a parsed value. *)
Definition truthy (j : json) : bool :=
  match j with
  | JNull => false
  | JBool b => b
  | JNumber (S754_zero _) => false
  | JNumber S754_nan => false
  | JNumber _ => true
  | JString s => negb (bool_decide (s = ""))
  | JArray _ => true
  | JObject _ => true
  end.

Fixpoint assoc (k : string) (fields : list (string * json)) : option json :=
  match fields with
  | [] => None
  | (k', v) :: rest => if bool_decide (k' = k) then Some v else assoc k rest
  end.

(** [v.k] for [k] one of "events", "tags" (no prototype has them):
    [null.k] throws a TypeError, a missing property is [undefined]. *)
Definition get_property (v : json) (k : string) : result (option json) :=
  match v with
  | JNull => Throw TypeError
  | JObject fields => Ok (assoc k fields)
  | _ => Ok None
  end.

(** [x || []] *)
Definition or_empty_array (x : option json) : json :=
  match x with
  | Some j => if truthy j then j else JArray []
  | None => JArray []
  end.

(** [s.endsWith(suffix)] *)
Definition endsWith (s suffix : string) : bool :=
  bool_decide (String.length suffix ≤ String.length s)%nat &&
  bool_decide (String.substring (String.length s - String.length suffix)%nat
                         (String.length suffix) s = suffix).

Definition is_digit (c : ascii) : bool :=
  let n := Z.of_nat (nat_of_ascii c) in (48 <=? n) && (n <=? 57).

Definition digit_value (c : ascii) : Z := Z.of_nat (nat_of_ascii c) - 48.

(** ASCII part of StrWhiteSpaceChar: TAB, LF, VT, FF, CR, SP. *)
Definition is_space (c : ascii) : bool :=
  let n := Z.of_nat (nat_of_ascii c) in
  ((9 <=? n) && (n <=? 13)) || (n =? 32).

Fixpoint skip_space (s : string) : string :=
  match s with
  | String c rest => if is_space c then skip_space rest else s
  | EmptyString => s
  end.

(** The digits at the front of [s], accumulated in base 10; [None] when
    [s] does not start with a digit. *)
Fixpoint digits (acc : option Z) (s : string) : option Z :=
  match s with
  | String c rest =>
      if is_digit c
      then digits (Some (10 * default 0 acc + digit_value c)) rest
      else acc
  | EmptyString => acc
  end.

(** [Number.parseInt(s, 10)]; [None] is NaN.  The model agrees with
    JavaScript on ASCII text whose value is a safe integer (below 2^53
    in absolute value); above that JavaScript rounds to a double, which
    [Z] does not, so what is proved of parsed values carries that
    bound. *)
Definition parseInt (s : string) : option Z :=
  match skip_space s with
  | String "-" rest => Z.opp <$> digits None rest
  | String "+" rest => digits None rest
  | t => digits None t
  end.

End JS.

Import JS.

(* ===================================================================== *)
(** ** Node's [path], POSIX flavour *)
(* ===================================================================== *)

Module Path.

(** Split at every "/" (like [s.split("/")]). *)
Fixpoint split_slash (cur : string) (s : string) : list string :=
  match s with
  | EmptyString => [cur]
  | String c rest =>
      if bool_decide (c = "/"%char)
      then cur :: split_slash "" rest
      else split_slash (cur +:+ String c "") rest
  end.

(** One step of [normalizeString]: [out] is the stack of kept
    segments, last segment first. *)
Definition push_segment (allowAboveRoot : bool) (out : list string)
    (seg : string) : list string :=
  if bool_decide (seg = "") || bool_decide (seg = ".") then out
  else if bool_decide (seg = "..") then
    match out with
    | top :: below =>
        if bool_decide (top = "..") then seg :: out else below
    | [] => if allowAboveRoot then [seg] else []
    end
  else seg :: out.

Fixpoint join_slash (segs : list string) : string :=
  match segs with
  | [] => ""
  | [s] => s
  | s :: rest => s +:+ "/" +:+ join_slash rest
  end.

Definition isAbsolute (p : string) : bool :=
  match p with String "/" _ => true | _ => false end.

(** [path.posix.normalize] *)
Definition normalize (p : string) : string :=
  if bool_decide (p = "") then "."
  else
    let abs := isAbsolute p in
    let trailing := endsWith p "/" in
    let body :=
      join_slash (rev (foldl (push_segment (negb abs)) [] (split_slash "" p))) in
    if bool_decide (body = "") then
      if abs then "/" else if trailing then "./" else "."
    else
      let body' := if trailing then body +:+ "/" else body in
      if abs then "/" +:+ body' else body'.

(** [path.posix.join(a, b)] *)
Definition join (a b : string) : string :=
  if bool_decide (a = "") then
    if bool_decide (b = "") then "." else normalize b
  else if bool_decide (b = "") then normalize a
  else normalize (a +:+ "/" +:+ b).

(** Scan of [dirname] from the end: [rev_tail] is the path without its
    first character, reversed.  Returns how many characters to drop
    from the end, or [None] when no separator ends a directory part. *)
Fixpoint dirname_scan (matchedSlash : bool) (dropped : nat)
    (rev_tail : list ascii) : option nat :=
  match rev_tail with
  | [] => None
  | c :: rest =>
      if bool_decide (c = "/"%char) then
        if matchedSlash then dirname_scan true (S dropped) rest
        else Some (S dropped)
      else dirname_scan false (S dropped) rest
  end.

(** [path.posix.dirname] *)
Definition dirname (p : string) : string :=
  match p with
  | EmptyString => "."
  | String c0 tail =>
      let hasRoot := bool_decide (c0 = "/"%char) in
      match dirname_scan true 0%nat (rev (String.list_ascii_of_string tail)) with
      | None => if hasRoot then "/" else "."
      | Some d =>
          let end_ := (String.length p - d)%nat in
          if hasRoot && bool_decide (end_ = 1%nat) then "//"
          else String.substring 0%nat end_ p
      end
  end.

End Path.

(* ===================================================================== *)
(** ** Node's [fs] *)
(* ===================================================================== *)

Module Fs.

(** What lives at a path; a symbolic link holds the path it points
    to.  The table is flat: the entries of a directory are the paths
    one name below it, and a file can be created at a path when its
    parent path leads to a directory. *)
Inductive node : Type :=
| File (content : list byte) (birthtimeMs : Z)
| Dir (birthtimeMs : Z) (size : Z)
| Symlink (target : string).

Record Stats : Type := { st_birthtimeMs : Z; st_size : Z }.

(** The kernel's bound on the links followed in one lookup. *)
Definition MAXSYMLINKS : nat := 40.

(** Follow the links at [p]; returns the last path reached and what is
    there, if anything. *)
Fixpoint resolve (fuel : nat) (fs : gmap string node) (p : string)
    : result (string * option node) :=
  match fs !! p with
  | Some (Symlink t) =>
      match fuel with
      | O => Throw (SystemError "ELOOP")
      | S n => resolve n fs t
      end
  | o => Ok (p, o)
  end.

(** As [resolve], for operations that need the target to exist. *)
Definition lookup_follow (fs : gmap string node) (p : string)
    : result (string * node) :=
  match resolve MAXSYMLINKS fs p with
  | Throw e => Throw e
  | Ok (_, None) => Throw (SystemError "ENOENT")
  | Ok (q, Some n) => Ok (q, n)
  end.

Definition realpathSync (fs : gmap string node) (p : string) : result string :=
  match lookup_follow fs p with
  | Throw e => Throw e
  | Ok (q, _) => Ok q
  end.

Definition statSync (fs : gmap string node) (p : string) : result Stats :=
  match lookup_follow fs p with
  | Throw e => Throw e
  | Ok (_, File c b) =>
      Ok {| st_birthtimeMs := b; st_size := Z.of_nat (length c) |}
  | Ok (_, Dir b sz) => Ok {| st_birthtimeMs := b; st_size := sz |}
  | Ok (_, Symlink _) => Throw (SystemError "ELOOP")
  end.

Definition readFileSync (fs : gmap string node) (p : string)
    : result (list byte) :=
  match lookup_follow fs p with
  | Throw e => Throw e
  | Ok (_, File c _) => Ok c
  | Ok (_, Dir _ _) => Throw (SystemError "EISDIR")
  | Ok (_, Symlink _) => Throw (SystemError "ELOOP")
  end.

(** The name of [p] below the directory [dir], when [p] is one name
    below it. *)
Definition child_name (dir p : string) : option string :=
  let prefix := if endsWith dir "/" then dir else dir +:+ "/" in
  let n := String.length prefix in
  let rest := String.substring n (String.length p - n) p in
  if bool_decide (String.substring 0 n p = prefix) &&
     negb (bool_decide (rest = "")) &&
     forallb (λ c, negb (bool_decide (c = "/"%char)))
             (String.list_ascii_of_string rest)
  then Some rest else None.

Definition children (fs : gmap string node) (dir : string) : list string :=
  omap (child_name dir) (map_to_list fs).*1.

Definition readdir (fs : gmap string node) (p : string)
    : result (list string) :=
  match lookup_follow fs p with
  | Throw e => Throw e
  | Ok (q, Dir _ _) => Ok (children fs q)
  | Ok (_, File _ _) => Throw (SystemError "ENOTDIR")
  | Ok (_, Symlink _) => Throw (SystemError "ELOOP")
  end.

(** [openSync(p, "r")].  A file descriptor is modelled by the path of
    the node it is open on. *)
Definition openSync_r (fs : gmap string node) (p : string) : result string :=
  match lookup_follow fs p with
  | Throw e => Throw e
  | Ok (q, _) => Ok q
  end.

(** [readSync(fd, buf, 0, len, 0)]: the bytes read; their number is
    the call's return value. *)
Definition readSync (fs : gmap string node) (f : string) (len : nat)
    : result (list byte) :=
  match fs !! f with
  | Some (File c _) => Ok (take len c)
  | Some (Dir _ _) => Throw (SystemError "EISDIR")
  | _ => Throw (SystemError "EBADF")
  end.

(** The directory that a new entry at [p] goes into: ENOENT when there
    is nothing at the parent path, ENOTDIR when it is not a directory. *)
Definition parent_directory (fs : gmap string node) (p : string)
    : result string :=
  match lookup_follow fs (Path.dirname p) with
  | Throw e => Throw e
  | Ok (q, Dir _ _) => Ok q
  | Ok (_, _) => Throw (SystemError "ENOTDIR")
  end.

(** O_CREAT on the free path [p]: an empty file born [now], if its
    directory is there. *)
Definition create (now : Z) (fs : gmap string node) (p : string)
    : result (string * gmap string node) :=
  match parent_directory fs p with
  | Throw e => Throw e
  | Ok _ => Ok (p, <[p := File [] now]> fs)
  end.

(** [openSync(p, "w")]: create or truncate, through links.  [now] is
    the birth time given to a created file. *)
Definition openSync_w (now : Z) (fs : gmap string node) (p : string)
    : result (string * gmap string node) :=
  match resolve MAXSYMLINKS fs p with
  | Throw e => Throw e
  | Ok (q, None) => create now fs q
  | Ok (q, Some (File _ b)) => Ok (q, <[q := File [] b]> fs)
  | Ok (_, Some (Dir _ _)) => Throw (SystemError "EISDIR")
  | Ok (_, Some (Symlink _)) => Throw (SystemError "ELOOP")
  end.

(** [openSync(p, "wx")]: exclusive create; fails on anything at [p],
    a link included. *)
Definition openSync_wx (now : Z) (fs : gmap string node) (p : string)
    : result (string * gmap string node) :=
  match fs !! p with
  | Some _ => Throw (SystemError "EEXIST")
  | None => create now fs p
  end.

(** [writeSync(fd, data)] on a descriptor just opened for writing. *)
Definition writeSync (fs : gmap string node) (f : string) (data : list byte)
    : result (gmap string node) :=
  match fs !! f with
  | Some (File c b) => Ok (<[f := File (c ++ data) b]> fs)
  | _ => Throw (SystemError "EBADF")
  end.

(** [rmSync(p, { force })], not recursive: a directory is refused,
    a missing path is an error unless [force]. *)
Definition rmSync (force : bool) (fs : gmap string node) (p : string)
    : result (gmap string node) :=
  match fs !! p with
  | None => if force then Ok fs else Throw (SystemError "ENOENT")
  | Some (Dir _ _) => Throw (SystemError "ERR_FS_EISDIR")
  | Some _ => Ok (delete p fs)
  end.

(** [renameSync(a, b)]: moves the node at [a] (a link is moved, not
    followed) over [b].  What is below a renamed directory is not
    re-keyed. *)
Definition renameSync (fs : gmap string node) (a b : string)
    : result (gmap string node) :=
  match fs !! a with
  | None => Throw (SystemError "ENOENT")
  | Some n =>
      if bool_decide (a = b) then Ok fs
      else
        match n, fs !! b with
        | Dir _ _, Some (Dir _ _) =>
            if bool_decide (children fs b = [])
            then Ok (<[b := n]> (delete a fs))
            else Throw (SystemError "ENOTEMPTY")
        | Dir _ _, Some _ => Throw (SystemError "ENOTDIR")
        | _, Some (Dir _ _) => Throw (SystemError "EISDIR")
        | _, _ => Ok (<[b := n]> (delete a fs))
        end
  end.

End Fs.

Import Fs.

(* ===================================================================== *)
(** ** State and exceptions *)
(* ===================================================================== *)

(** A computation over a state [S] that returns or throws; what it did
    to the state before throwing stays done. *)
Definition ST (S A : Type) : Type := S → result A * S.

Global Instance ST_ret {S} : MRet (ST S) := λ A a s, (Ok a, s).

Global Instance ST_bind {S} : MBind (ST S) := λ A B f m s,
  match m s with
  | (Ok a, s') => f a s'
  | (Throw e, s') => (Throw e, s')
  end.

Definition throw {S A} (e : error) : ST S A := λ s, (Throw e, s).

(** [try { m } catch (e) { h e }] *)
Definition catch {S A} (m : ST S A) (h : error → ST S A) : ST S A := λ s,
  match m s with
  | (Ok a, s') => (Ok a, s')
  | (Throw e, s') => h e s'
  end.

(** Run [m] and hand its outcome to the continuation, for a [try] whose
    [catch] leaves the function. *)
Definition attempt {S A} (m : ST S A) : ST S (result A) := λ s,
  match m s with
  | (r, s') => (Ok r, s')
  end.

Definition gets {S A} (f : S → A) : ST S A := λ s, (Ok (f s), s).
Definition modify {S} (f : S → S) : ST S unit := λ s, (Ok tt, f s).
Definition of_result {S A} (r : result A) : ST S A := λ s, (r, s).

(* ===================================================================== *)
(** ** [src/Demos.ts] *)
(* ===================================================================== *)

Module Demos.

(** *** The [electron-log] sink *)

Inductive level : Type := Debug | Info | Warn | Error.

(** One constructor per message template of the file, with the values
    interpolated into it. *)
Inductive message : Type :=
| DeletingEventsFile (jsonPath : string)
| WritingEventsFile (jsonPath : string)
| EventsFileExists (jsonPath : string)
| ReadingFileHeader (filename : string)
| ShortRead (filename : string) (bytesRead expected : nat)
| InvalidFileStamp (filename filestamp : string)
| LookingForEventsFile (jsonPath : string)
| RenamingDemo (shortName newName : string)
| FindingDemoFiles (dirPath : string)
| ErrorReadingPath (dirPath : string) (e : error)
| FoundDemoFile (file : string)
| FoundNonDemoFile (file : string)
| DeletingDemo (filename : string).

(** *** Data *)

(** Modelled from the spec: the declaration of [DemoHeader]
    ([src/DemoHeader.ts]) is not part of the sources; the fields are
    those the object literal of [readFileHeader] fills. *)
Record DemoHeader : Type := {
  demoVersion : Z;
  netVersion : Z;
  serverName : string;
  clientName : string;
  mapName : string;
  gameDir : string;
  playbackTime : spec_float;
  numTicks : Z;
  numFrames : Z;
  signonLength : Z
}.

(** Modelled from the spec: the declaration of [DemoEvent]
    ([src/DemoEvent.ts]) is not part of the sources; the spec gives an
    event as [{tick, name, value}]. *)
Record DemoEvent : Type := {
  tick : Z;
  name : string;
  value : string
}.

(** The [events] and [tags] fields hold what came out of [JSON.parse]
    unchecked, hence [json]. *)
Record Demo : Type := {
  filename : string;
  birthtime : Z;
  filesize : Z;
  header : DemoHeader;
  events : json;
  tags : json
}.

(** The process: the file system, the clock, the log written so far
    (oldest first), the [Demo] objects allocated so far (an object
    reference is an index) and the static [Demo.demoCache].  The keys
    of the cache are results of [realpathSync], absolute paths, so no
    key is a property that the cache object inherits. *)
Record world : Type := {
  fs : gmap string node;
  clock : Z;
  log : list (level * message);
  heap : list Demo;
  demoCache : gmap string nat
}.

Definition set_fs (f : gmap string node) (w : world) : world :=
  {| fs := f; clock := clock w; log := log w; heap := heap w;
     demoCache := demoCache w |}.

Definition add_log (e : level * message) (w : world) : world :=
  {| fs := fs w; clock := clock w; log := log w ++ [e]; heap := heap w;
     demoCache := demoCache w |}.

Definition set_heap (h : list Demo) (w : world) : world :=
  {| fs := fs w; clock := clock w; log := log w; heap := h;
     demoCache := demoCache w |}.

Definition set_demoCache (c : gmap string nat) (w : world) : world :=
  {| fs := fs w; clock := clock w; log := log w; heap := heap w;
     demoCache := c |}.

Definition M (A : Type) : Type := ST world A.

Definition log_ (l : level) (m : message) : M unit := modify (add_log (l, m)).

(** A read-only [fs] call. *)
Definition fs_read {A} (f : gmap string node → result A) : M A :=
  λ w, (f (fs w), w).

(** An [fs] call that changes the file system. *)
Definition fs_update (f : gmap string node → result (gmap string node))
    : M unit := λ w,
  match f (fs w) with
  | Ok fs' => (Ok tt, set_fs fs' w)
  | Throw e => (Throw e, w)
  end.

(** An [openSync] for writing. *)
Definition fs_open
    (f : Z → gmap string node → result (string * gmap string node))
    : M string := λ w,
  match f (clock w) (fs w) with
  | Ok (d, fs') => (Ok d, set_fs fs' w)
  | Throw e => (Throw e, w)
  end.

(** [new Demo(...)]: the reference of the new object. *)
Definition new_Demo (d : Demo) : M nat := λ w,
  (Ok (length (heap w)), set_heap (heap w ++ [d]) w).

(** Read through a reference. *)
Definition deref (this : nat) : M Demo := λ w,
  match heap w !! this with
  | Some d => (Ok d, w)
  | None => (Throw TypeError, w)
  end.

(** *** [StreamReader] *)

(** Modelled from the spec: [src/StreamReader.ts] is not part of the
    sources.  Spec 4.1: a cursor over a byte buffer; [readString n]
    reads [n] bytes and returns the text before the first NUL among
    them, [readInt] reads 4 bytes little-endian as a signed integer,
    [readFloat] reads 4 bytes little-endian as an IEEE-754 single; each
    advances the cursor by the bytes read, and a read past the end of
    the buffer fails. *)
Record StreamReader : Type := { buf : list byte; offset : nat }.

(** Modelled from the spec: the bounds check shared by the reads of
    [StreamReader] (a read past the end fails, the cursor only moves
    forward by the bytes read). *)
Definition read_bytes (n : nat) : ST StreamReader (list byte) := λ sr,
  if bool_decide (offset sr + n ≤ length (buf sr))%nat
  then (Ok (take n (drop (offset sr) (buf sr))),
        {| buf := buf sr; offset := (offset sr + n)%nat |})
  else (Throw RangeError, sr).

(** Modelled from the spec: the text of a fixed string of
    [StreamReader] stops before the first NUL byte. *)
Fixpoint until_nul (bs : list byte) : list byte :=
  match bs with
  | [] => []
  | b :: rest => if Byte.eqb b x00 then [] else b :: until_nul rest
  end.

(** Modelled from the spec: [StreamReader.readString], the spec's
    [readFixedString(n)]. *)
Definition readString (n : nat) : ST StreamReader string :=
  bs ← read_bytes n; mret (string_of_list_byte (until_nul bs)).

(** Modelled from the spec: the little-endian value of the bytes that
    [StreamReader] reads for a number. *)
Fixpoint le_unsigned (bs : list byte) : Z :=
  match bs with
  | [] => 0
  | b :: rest => Z.of_N (Byte.to_N b) + 256 * le_unsigned rest
  end.

(** Modelled from the spec: 32 bits as a signed integer. *)
Definition int32_of_bits (u : Z) : Z :=
  if Z.testbit u 31 then u - 2 ^ 32 else u.

(** Modelled from the spec: 32 bits as an IEEE-754 single (sign, 8 bits
    of exponent, 23 bits of fraction). *)
Definition float32_of_bits (u : Z) : spec_float :=
  let s := Z.testbit u 31 in
  let e := Z.land (Z.shiftr u 23) 255 in
  let m := Z.land u (2 ^ 23 - 1) in
  if e =? 0 then
    match m with
    | Zpos p => S754_finite s p (-149)
    | _ => S754_zero s
    end
  else if e =? 255 then
    if m =? 0 then S754_infinity s else S754_nan
  else
    match m + 2 ^ 23 with
    | Zpos p => S754_finite s p (e - 150)
    | _ => S754_zero s
    end.

(** Modelled from the spec: [StreamReader.readInt], the spec's
    [readInt32()]. *)
Definition readInt : ST StreamReader Z :=
  bs ← read_bytes 4; mret (int32_of_bits (le_unsigned bs)).

(** Modelled from the spec: [StreamReader.readFloat], the spec's
    [readFloat32()]. *)
Definition readFloat : ST StreamReader spec_float :=
  bs ← read_bytes 4; mret (float32_of_bits (le_unsigned bs)).

(** *** The header *)

Definition HEADER_SIZE : nat :=
  (8 + 4 + 4 + 260 + 260 + 260 + 260 + 4 + 4 + 4 + 4)%nat.

(** The object literal of [readFileHeader], fields read in order. *)
Definition read_header_fields : ST StreamReader DemoHeader :=
  demoVersion_ ← readInt;
  netVersion_ ← readInt;
  serverName_ ← readString 260;
  clientName_ ← readString 260;
  mapName_ ← readString 260;
  gameDir_ ← readString 260;
  playbackTime_ ← readFloat;
  numTicks_ ← readInt;
  numFrames_ ← readInt;
  signonLength_ ← readInt;
  mret {| demoVersion := demoVersion_; netVersion := netVersion_;
          serverName := serverName_; clientName := clientName_;
          mapName := mapName_; gameDir := gameDir_;
          playbackTime := playbackTime_; numTicks := numTicks_;
          numFrames := numFrames_; signonLength := signonLength_ |}.

(** What [readFileHeader] does with the buffer once it is full. *)
Definition decode_header (filename : string) (bytes : list byte)
    : M DemoHeader :=
  let sr := {| buf := bytes; offset := 0%nat |} in
  match readString 8 sr with
  | (Throw e, _) => throw e
  | (Ok filestamp, sr) =>
      if bool_decide (filestamp ≠ "HL2DEMO") then
        log_ Warn (InvalidFileStamp filename filestamp);;
        throw InvalidDemoFileError
      else of_result (fst (read_header_fields sr))
  end.

Definition readFileHeader (filename : string) : M DemoHeader :=
  log_ Debug (ReadingFileHeader filename);;
  fd ← fs_read (λ t, openSync_r t filename);
  bytes ← fs_read (λ t, readSync t fd HEADER_SIZE);
  let bytesRead := length bytes in
  if bool_decide (bytesRead ≠ HEADER_SIZE) then
    log_ Warn (ShortRead filename bytesRead HEADER_SIZE);;
    throw InvalidDemoFileError
  else decode_header filename bytes.

(** *** Paths *)

(** Canonicalize of a case-insensitive pattern: ASCII letters to upper
    case, every other character as it is. *)
Definition canonicalize (c : ascii) : ascii :=
  let n := nat_of_ascii c in
  if bool_decide (97 ≤ n ≤ 122)%nat then ascii_of_nat (n - 32) else c.

Fixpoint map_string (f : ascii → ascii) (s : string) : string :=
  match s with
  | EmptyString => EmptyString
  | String c rest => String (f c) (map_string f rest)
  end.

(** Whether [/\.dem$/i] matches [s]. *)
Definition matches_dem_i (s : string) : bool :=
  let n := String.length s in
  bool_decide (4 ≤ n)%nat &&
  bool_decide (map_string canonicalize (String.substring (n - 4) 4 s) = ".DEM").

(** [filename.replace(/\.dem$/gi, ".json")] *)
Definition getJSONPath (filename : string) : string :=
  if matches_dem_i filename
  then String.substring 0 (String.length filename - 4) filename +:+ ".json"
  else filename.

(** No events and no tags, as [readEventsAndTags] returns them. *)
Definition empty_annotations : json * json := (JArray [], JArray []).

Section WithNode.

(** [JSON.parse]: the value, or the SyntaxError it throws. *)
Variable JSON_parse : string → result json.

(** [JSON.stringify({ events, tags }, null, "\t")] *)
Variable JSON_stringify : list DemoEvent → list string → string.

(** [path.dirname], [path.join] on two arguments, [path.basename]
    with an extension to strip. *)
Variable path_dirname : string → string.
Variable path_join : string → string → string.
Variable path_basename : string → string → string.

(** *** The sidecar file *)

Definition writeEventsAndTagsFile (events : list DemoEvent)
    (tags : list string) (jsonPath : string) (overwrite : bool) : M unit :=
  if bool_decide (length events = 0%nat) then
    log_ Debug (DeletingEventsFile jsonPath);;
    fs_update (λ t, rmSync true t jsonPath)
  else
    log_ Debug (WritingEventsFile jsonPath);;
    r ← attempt (fs_open (λ now t,
           if overwrite then openSync_w now t jsonPath
           else openSync_wx now t jsonPath));
    match r with
    | Throw e =>
        if has_code e "EEXIST" then log_ Debug (EventsFileExists jsonPath)
        else throw e
    | Ok fd =>
        fs_update (λ t, writeSync t fd
          (list_byte_of_string (JSON_stringify events tags)))
    end.

(** The body of the second [try] of [readEventsAndTags]. *)
Definition parse_events_and_tags (content : list byte)
    : M (json * json) :=
  parsedJson ← of_result (JSON_parse (string_of_list_byte content));
  events_ ← of_result (get_property parsedJson "events");
  tags_ ← of_result (get_property parsedJson "tags");
  mret (or_empty_array events_, or_empty_array tags_).

Definition readEventsAndTags (jsonPath : string) : M (json * json) :=
  log_ Debug (LookingForEventsFile jsonPath);;
  r ← attempt (fs_read (λ t, readFileSync t jsonPath));
  match r with
  | Throw e =>
      if has_code e "ENOENT" then mret empty_annotations
      else throw e
  | Ok content =>
      catch (parse_events_and_tags content)
            (λ _, mret empty_annotations)
  end.

(** *** The cache *)

Definition getDemo (filename : string) : M nat :=
  realPath ← fs_read (λ t, realpathSync t filename);
  cache ← gets demoCache;
  match cache !! realPath with
  | Some d => mret d
  | None =>
      stats ← fs_read (λ t, statSync t realPath);
      '(events_, tags_) ← readEventsAndTags (getJSONPath realPath);
      header_ ← readFileHeader realPath;
      newDemo ← new_Demo {| filename := realPath; header := header_;
                            events := events_; tags := tags_;
                            birthtime := st_birthtimeMs stats;
                            filesize := st_size stats |};
      modify (λ w, set_demoCache (<[realPath := newDemo]> (demoCache w)) w);;
      mret newDemo
  end.

(** *** Methods of a [Demo] *)

Definition getShortName (d : Demo) : string :=
  path_basename (filename d) ".dem".

(** [this.filename = f] *)
Definition set_filename (this : nat) (f : string) : M unit :=
  d ← deref this;
  modify (λ w, set_heap (<[this := {| filename := f;
            birthtime := birthtime d; filesize := filesize d;
            header := header d; events := events d; tags := tags d |}]>
          (heap w)) w).

Definition rename (this : nat) (newName : string) : M unit :=
  d ← deref this;
  log_ Info (RenamingDemo (getShortName d) newName);;
  let dir := path_dirname (filename d) in
  let newNameFull := path_join dir (newName +:+ ".dem") in
  fs_update (λ t, renameSync t (filename d) newNameFull);;
  catch (fs_update (λ t, renameSync t (getJSONPath (filename d))
                             (path_join dir (newName +:+ ".json"))))
        (λ e, if has_code e "ENOENT" then mret tt else throw e);;
  set_filename this newNameFull.

(** *** The directory scan *)

(** The callback of [files.forEach], on [demoList] so far. *)
Definition scan_file (dirPath : string) (demoList : list nat)
    (file : string) : M (list nat) :=
  if endsWith file ".dem" then
    log_ Debug (FoundDemoFile file);;
    catch (d ← getDemo (path_join dirPath file); mret (demoList ++ [d]))
          (λ _, mret demoList)
  else
    log_ Debug (FoundNonDemoFile file);;
    mret demoList.

Fixpoint scan_files (dirPath : string) (demoList : list nat)
    (files : list string) : M (list nat) :=
  match files with
  | [] => mret demoList
  | file :: rest =>
      demoList' ← scan_file dirPath demoList file;
      scan_files dirPath demoList' rest
  end.

Definition getDemosInDirectory (dirPath : string) : M (list nat) :=
  log_ Debug (FindingDemoFiles dirPath);;
  r ← attempt (fs_read (λ t, readdir t dirPath));
  match r with
  | Throw e => log_ Error (ErrorReadingPath dirPath e);; mret []
  | Ok files => scan_files dirPath [] files
  end.

End WithNode.

(** *** Vocabulary of the properties *)

(** The object that [getDemo] builds. *)
Definition built (realPath : string) (stats : Stats) (annotations : json * json)
    (h : DemoHeader) : Demo :=
  {| filename := realPath; header := h; events := annotations.1;
     tags := annotations.2; birthtime := st_birthtimeMs stats;
     filesize := st_size stats |}.

(** [Ok a] as [Some a], an exception as [None]. *)
Definition returned {A} (r : result A) : option A :=
  match r with
  | Ok a => Some a
  | Throw _ => None
  end.

(** How many times the log says that a header was read. *)
Definition header_reads (l : list (level * message)) : nat :=
  length (List.filter
            (λ e, match e.2 with ReadingFileHeader _ => true | _ => false end)
            l).

(** A world with nothing but a file system. *)
Definition bare (t : gmap string node) : world :=
  {| fs := t; clock := 0; log := []; heap := []; demoCache := ∅ |}.

(** Whether the three reads that [getDemo] makes on a cache miss for the
    canonical path [realPath] succeed on the file system [t]. *)
Definition loads (JSON_parse : string → result json)
    (t : gmap string node) (realPath : string) : bool :=
  match statSync t realPath,
        fst (readEventsAndTags JSON_parse (getJSONPath realPath) (bare t)),
        fst (readFileHeader realPath (bare t)) with
  | Ok _, Ok _, Ok _ => true
  | _, _, _ => false
  end.

(** [w'] is [w] after some calls of [getDemo]: the same files, the
    cache of [w] and more entries for paths that load. *)
Definition grown (JSON_parse : string → result json) (w w' : world) : Prop :=
  fs w' = fs w ∧
  (∀ k d, demoCache w !! k = Some d → demoCache w' !! k = Some d) ∧
  (∀ k, demoCache w !! k = None → is_Some (demoCache w' !! k) →
        loads JSON_parse (fs w) k = true).

(** What a directory entry contributes to the result of the scan: the
    demo that [getDemo] returns for it, when its name ends in ".dem" and
    [getDemo] returns. *)
Definition listed (JSON_parse : string → result json)
    (path_join : string → string → string)
    (dirPath : string) (w : world) (file : string) : option nat :=
  if endsWith file ".dem"
  then returned (fst (getDemo JSON_parse (path_join dirPath file) w))
  else None.

End Demos.

(* ===================================================================== *)
(** ** [RenameDialog]: the name check of the rename dialog *)
(* ===================================================================== *)

Module RenameDialog.

Record RenameDialogState : Type := {
  newName : option string;
  newNameValid : bool;
  open : bool
}.

(** Membership in the class [[a-zA-Z0-9\-_ [\]().]]. *)
Definition legal_char (c : ascii) : bool :=
  let n := Z.of_nat (nat_of_ascii c) in
  ((97 <=? n) && (n <=? 122)) || ((65 <=? n) && (n <=? 90)) ||
  ((48 <=? n) && (n <=? 57)) ||
  bool_decide (c ∈ ["-"; "_"; " "; "["; "]"; "("; ")"; "."]%char).

(** [/^[a-zA-Z0-9\-_ [\]().]{1,50}$/.test(s)] *)
Definition legal_name (s : string) : bool :=
  bool_decide (1 ≤ String.length s ≤ 50)%nat &&
  forallb legal_char (String.list_ascii_of_string s).

(** [validateNewName] with [e.target.value = v]. *)
Definition validateNewName (v : string) (st : RenameDialogState)
    : RenameDialogState :=
  if legal_name v
  then {| newName := Some v; newNameValid := true; open := open st |}
  else {| newName := newName st; newNameValid := false; open := open st |}.

End RenameDialog.

(* ===================================================================== *)
(** ** [src/views/demoDetails/Highlights.tsx] *)
(* ===================================================================== *)

Module Highlights.

(** Modelled from the spec: the declarations of [Highlight],
    [PlayerSummary] and [HighlightPlayerSnapshot] ([src/demo]) are not
    part of the sources.  The variants are the tags the file names;
    the fields are those [doesHighlightIncludePlayer] and
    [recomputeHighlights] read.  A player reference that goes through
    [samePlayer] may be [null]; the sender of a chat message is read
    unguarded. *)
Record Player : Type := { user_id : Z; name : string }.

(** Modelled from the spec: the declaration of [Highlight] is not part
    of the sources; one constructor per tag that the file names, with
    the fields of [c] that it reads. *)
Inductive Highlight : Type :=
| Airshot (victim attacker : option Player)
| ChatMessage (sender : Player) (text : string)
| CrossbowAirshot (healer target : option Player)
| Kill (killer assister victim : option Player)
| KillStreak (player : option Player)
| KillStreakEnded (killer victim : option Player)
| PlayerConnected (c : Player)
| PlayerDisconnected (c : Player)
| PointCaptured (cappers : list Z)
| RoundStart
| RoundWin
| RoundStalemate.

(** Modelled from the spec: one entry of [gameSummary.highlights], a
    highlight and its tick; the declaration is not part of the sources. *)
Record Entry : Type := { event : Highlight; tick : Z }.

(** [Filters], from [TimelineFilters]. *)
Record Filters : Type := {
  playerIds : list string;
  chatSearch : string;
  visibleKillfeed : bool;
  visibleCaptures : bool;
  visibleChat : bool;
  visibleConnectionMessages : bool;
  visibleKillstreaks : bool;
  visibleRounds : bool;
  visibleAirshots : bool
}.

(** The initial state of [TimelineFilters]. *)
Definition initial_filters : Filters := {|
  playerIds := [];
  chatSearch := "";
  visibleKillfeed := true;
  visibleCaptures := true;
  visibleChat := true;
  visibleConnectionMessages := true;
  visibleKillstreaks := true;
  visibleRounds := true;
  visibleAirshots := true
|}.

(** [playerId === player?.user_id]; [playerId] is [None] when NaN. *)
Definition samePlayer (playerId : option Z) (player : option Player) : bool :=
  match playerId, player with
  | Some i, Some p => i =? user_id p
  | _, _ => false
  end.

(** [cappers.includes(playerId)]; no capper is NaN. *)
Definition includes (cappers : list Z) (playerId : option Z) : bool :=
  match playerId with
  | Some i => existsb (Z.eqb i) cappers
  | None => false
  end.

Definition doesHighlightIncludePlayer (highlight : Highlight)
    (playerId : option Z) : bool :=
  match highlight with
  | Airshot victim attacker =>
      samePlayer playerId victim || samePlayer playerId attacker
  | ChatMessage sender _ => samePlayer playerId (Some sender)
  | CrossbowAirshot healer target =>
      samePlayer playerId healer || samePlayer playerId target
  | Kill killer assister victim =>
      samePlayer playerId killer || samePlayer playerId assister ||
      samePlayer playerId victim
  | KillStreak player => samePlayer playerId player
  | KillStreakEnded killer victim =>
      samePlayer playerId killer || samePlayer playerId victim
  | PlayerConnected c => samePlayer playerId (Some c)
  | PlayerDisconnected c => samePlayer playerId (Some c)
  | PointCaptured cappers => includes cappers playerId
  | _ => true
  end.

(** The callback of the first [filter]: the result of [find] (a
    string or [undefined]) taken as a boolean. *)
Definition involves_selected (ids : list string) (h : Entry) : bool :=
  match List.find (λ p, doesHighlightIncludePlayer (event h) (parseInt p)) ids with
  | Some p => negb (bool_decide (p = ""))
  | None => false
  end.

Definition is_ChatMessage (e : Highlight) : bool :=
  match e with ChatMessage _ _ => true | _ => false end.
Definition is_Kill (e : Highlight) : bool :=
  match e with Kill _ _ _ => true | _ => false end.
Definition is_PointCaptured (e : Highlight) : bool :=
  match e with PointCaptured _ => true | _ => false end.
Definition is_connection (e : Highlight) : bool :=
  match e with PlayerConnected _ | PlayerDisconnected _ => true | _ => false end.
Definition is_killstreak (e : Highlight) : bool :=
  match e with KillStreak _ | KillStreakEnded _ _ => true | _ => false end.
Definition is_round (e : Highlight) : bool :=
  match e with RoundStart | RoundWin | RoundStalemate => true | _ => false end.
Definition is_airshot (e : Highlight) : bool :=
  match e with Airshot _ _ | CrossbowAirshot _ _ => true | _ => false end.

(** [if (!visible) highlights = highlights.filter(h => !hidden(h.event))] *)
Definition toggle (visible : bool) (hidden : Highlight → bool)
    (highlights : list Entry) : list Entry :=
  if negb visible
  then List.filter (λ h, negb (hidden (event h))) highlights
  else highlights.

Section WithRegExp.

(** A compiled pattern; [new RegExp(source, "i")], which throws a
    SyntaxError on a malformed source; [regex.test(s)]. *)
Variable RegExp : Type.
Variable RegExp_i : string → result RegExp.
Variable test : RegExp → string → bool.

Definition chat_matches (regex : RegExp) (h : Entry) : bool :=
  match event h with
  | ChatMessage sender text => test regex (name sender) || test regex text
  | _ => true
  end.

(** The list handed to [setHighlights], or the exception that
    leaves the state as it was. *)
Definition recomputeHighlights (all : list Entry) (filters : Filters)
    : result (list Entry) :=
  let highlights := all in
  let highlights :=
    if (0 <? length (playerIds filters))%nat
    then List.filter (involves_selected (playerIds filters)) highlights
    else highlights in
  match
    (if bool_decide (chatSearch filters ≠ "") then
       match RegExp_i (chatSearch filters) with
       | Ok regex => Ok (List.filter (chat_matches regex) highlights)
       | Throw e => Throw e
       end
     else Ok highlights)
  with
  | Throw e => Throw e
  | Ok highlights =>
      let highlights := toggle (visibleKillfeed filters) is_Kill highlights in
      let highlights := toggle (visibleCaptures filters) is_PointCaptured highlights in
      let highlights := toggle (visibleChat filters) is_ChatMessage highlights in
      let highlights := toggle (visibleConnectionMessages filters) is_connection highlights in
      let highlights := toggle (visibleKillstreaks filters) is_killstreak highlights in
      let highlights := toggle (visibleRounds filters) is_round highlights in
      let highlights := toggle (visibleAirshots filters) is_airshot highlights in
      Ok highlights
  end.

End WithRegExp.

End Highlights.

(* ===================================================================== *)
(** ** Concrete worlds used by the examples *)
(* ===================================================================== *)

Module Examples.
Import Demos.

(** A header-sized file with the right stamp and every field zero. *)
Definition valid_demo : list byte :=
  list_byte_of_string "HL2DEMO" ++ replicate 1065 x00.

(** 792 bytes with the right stamp. *)
Definition demo_792 : list byte :=
  list_byte_of_string "HL2DEMO" ++ replicate 785 x00.

Definition sidecar : list byte :=
  list_byte_of_string "{ events: [], tags: [ clutch ] }".

(** A demo with its sidecar, a link to the demo, a demo with an
    upper-case extension and a file that is too short. *)
Definition disk : gmap string node :=
  <["/demos" := Dir 0 4096]>
  (<["/demos/a.dem" := File valid_demo 1000]>
  (<["/demos/a.json" := File sidecar 2000]>
  (<["/demos/MATCH.DEM" := File valid_demo 3000]>
  (<["/demos/short.dem" := File demo_792 4000]>
  (<["/link.dem" := Symlink "/demos/a.dem"]> ∅))))).

Definition boot : world :=
  {| fs := disk; clock := 5000; log := []; heap := []; demoCache := ∅ |}.

(** A stand-in for [JSON.parse]: nothing on [disk] is valid JSON. *)
Definition no_json (s : string) : result json := Throw SyntaxError.

(** [path.basename(p, ext)] is only used in a log line. *)
Definition basename_stub (p ext : string) : string := p.

(** [boot] after [getDemo] on /demos/a.dem, and the object it built. *)
Definition loaded : world := snd (getDemo no_json "/demos/a.dem" boot).

Definition loaded_demo : Demo :=
  {| filename := "/demos/a.dem"; birthtime := 1000; filesize := 1072;
     header := {| demoVersion := 0; netVersion := 0; serverName := "";
                  clientName := ""; mapName := ""; gameDir := "";
                  playbackTime := S754_zero false; numTicks := 0;
                  numFrames := 0; signonLength := 0 |};
     events := JArray []; tags := JArray [] |}.

(** A short match: a round starts, player 7 kills player 8, player 9
    kills player 8, the round is won, the next one is a stalemate. *)
Definition player (id : Z) : Highlights.Player :=
  {| Highlights.user_id := id; Highlights.name := "player" |}.

Definition match_timeline : list Highlights.Entry :=
  [ {| Highlights.event := Highlights.RoundStart; Highlights.tick := 0 |};
    {| Highlights.event :=
         Highlights.Kill (Some (player 7)) None (Some (player 8));
       Highlights.tick := 10 |};
    {| Highlights.event :=
         Highlights.Kill (Some (player 9)) None (Some (player 8));
       Highlights.tick := 20 |};
    {| Highlights.event := Highlights.RoundWin; Highlights.tick := 30 |};
    {| Highlights.event := Highlights.RoundStalemate; Highlights.tick := 40 |} ].

End Examples.

(* ===================================================================== *)
(** ** More of [src/Demos.ts] *)
(* ===================================================================== *)

Module DemoMethods.
Import Demos.

(** [delete()] *)
Definition delete_ (this : nat) : M unit :=
  d ← deref this;
  log_ Info (DeletingDemo (filename d));;
  fs_update (λ t, rmSync false t (filename d));;
  catch (fs_update (λ t, rmSync false t (getJSONPath (filename d))))
        (λ e, if has_code e "ENOENT" then mret tt else throw e).

(** Every entry of the cache leads to an object that carries the key as
    its [filename]. *)
Definition cache_named (w : world) : Prop :=
  ∀ k d, demoCache w !! k = Some d → filename <$> heap w !! d = Some k.

(** The cached object of a directory entry whose name ends in ".dem". *)
Definition cached_entry (path_join : string → string → string)
    (dirPath : string) (w : world) (file : string) : option nat :=
  if endsWith file ".dem" then
    match realpathSync (fs w) (path_join dirPath file) with
    | Ok realPath => demoCache w !! realPath
    | Throw _ => None
    end
  else None.

(** Every entry of [files] that ends in ".dem" and loads is cached. *)
Definition saturated (JSON_parse : string → result json)
    (path_join : string → string → string)
    (dirPath : string) (files : list string) (w : world) : Prop :=
  ∀ file realPath,
    file ∈ files → endsWith file ".dem" = true →
    realpathSync (fs w) (path_join dirPath file) = Ok realPath →
    loads JSON_parse (fs w) realPath = true →
    is_Some (demoCache w !! realPath).

(** The object [d] once [this.filename = f] has run. *)
Definition with_filename (f : string) (d : Demo) : Demo :=
  {| filename := f; birthtime := birthtime d; filesize := filesize d;
     header := header d; events := events d; tags := tags d |}.

(** [disk] with a directory where the sidecar of b.dem would go, and
    the world after [getDemo] on /demos/a.dem there. *)
Definition disk_blocked : gmap string node :=
  <["/demos/b.json" := Dir 0 4096]> Examples.disk.

Definition loaded_blocked : world :=
  snd (getDemo Examples.no_json "/demos/a.dem"
         {| fs := disk_blocked; clock := 5000; log := []; heap := [];
            demoCache := ∅ |}).

(** Stand-ins for [JSON] in examples: a serializer that writes the text
    of the empty object, and a parser that knows that text only. *)
Definition stringify_empty (events : list DemoEvent) (tags : list string)
    : string := "{}".

Definition parse_empty (s : string) : result json :=
  if bool_decide (s = "{}") then Ok (JObject []) else Throw SyntaxError.

(** A bookmark at tick 100. *)
Definition bookmark : DemoEvent :=
  {| tick := 100; name := "Bookmark"; value := "clutch" |}.

End DemoMethods.

(* ===================================================================== *)
(** ** More of [RenameDialog] *)
(* ===================================================================== *)

Module RenameDialogMethods.
Import RenameDialog.

(** [close]: [setState({ open: false })] *)
Definition close (st : RenameDialogState) : RenameDialogState :=
  {| newName := newName st; newNameValid := newNameValid st; open := false |}.

(** [open(demoName)]: [setState({ newName: demoName, open: true })] *)
Definition open_ (demoName : string) (st : RenameDialogState)
    : RenameDialogState :=
  {| newName := Some demoName; newNameValid := newNameValid st; open := true |}.

(** The change events of the text field, one after the other. *)
Definition typed (values : list string) (st : RenameDialogState)
    : RenameDialogState :=
  foldl (λ st v, validateNewName v st) st values.

(** What a click on Confirm hands to [onConfirm], if anything. *)
Definition confirmed (st : RenameDialogState) : option string := newName st.

End RenameDialogMethods.

(* ===================================================================== *)
(** ** [TimelineFilters] and its use by the highlight list *)
(* ===================================================================== *)

From Stdlib Require DecimalString DecimalPos DecimalZ.

Module TimelineFilters.
Import Highlights.

(** The toggle buttons, by their labels; each stands for one boolean
    property of [Filters]. *)
Inductive Category : Type :=
| Killfeed | Killstreaks | Captures | Chat | PlayerJoins | Rounds | Airshots.

Global Instance Category_eq_dec : EqDecision Category.
Proof. solve_decision. Defined.

(** [filters[prop]] for the property of a button. *)
Definition visible (c : Category) (f : Filters) : bool :=
  match c with
  | Killfeed => visibleKillfeed f
  | Killstreaks => visibleKillstreaks f
  | Captures => visibleCaptures f
  | Chat => visibleChat f
  | PlayerJoins => visibleConnectionMessages f
  | Rounds => visibleRounds f
  | Airshots => visibleAirshots f
  end.

(** [filters[prop] = visible] *)
Definition set_visible (c : Category) (b : bool) (f : Filters) : Filters :=
  {| playerIds := playerIds f;
     chatSearch := chatSearch f;
     visibleKillfeed := if c is Killfeed then b else visibleKillfeed f;
     visibleCaptures := if c is Captures then b else visibleCaptures f;
     visibleChat := if c is Chat then b else visibleChat f;
     visibleConnectionMessages :=
       if c is PlayerJoins then b else visibleConnectionMessages f;
     visibleKillstreaks := if c is Killstreaks then b else visibleKillstreaks f;
     visibleRounds := if c is Rounds then b else visibleRounds f;
     visibleAirshots := if c is Airshots then b else visibleAirshots f |}.

(** [filters.chatSearch = text] *)
Definition set_chatSearch (text : string) (f : Filters) : Filters :=
  {| playerIds := playerIds f; chatSearch := text;
     visibleKillfeed := visibleKillfeed f; visibleCaptures := visibleCaptures f;
     visibleChat := visibleChat f;
     visibleConnectionMessages := visibleConnectionMessages f;
     visibleKillstreaks := visibleKillstreaks f;
     visibleRounds := visibleRounds f; visibleAirshots := visibleAirshots f |}.


(** The variants that the filter of [recomputeHighlights] for a toggle
    removes. *)
Definition in_category (c : Category) (e : Highlight) : bool :=
  match c with
  | Killfeed => is_Kill e
  | Killstreaks => is_killstreak e
  | Captures => is_PointCaptured e
  | Chat => is_ChatMessage e
  | PlayerJoins => is_connection e
  | Rounds => is_round e
  | Airshots => is_airshot e
  end.

(** [Number.isSafeInteger(n)] for an integer [n]: the integers that a
    JavaScript number holds exactly. *)
Definition isSafeInteger (n : Z) : bool := (- 2 ^ 53 <? n) && (n <? 2 ^ 53).

(** [n.toString(10)] for an integer [n]: a minus sign if negative, then
    every decimal digit.  This is what JavaScript prints for a safe
    integer; from 1e21 on it prints an exponent instead, so what is
    proved of the text carries [isSafeInteger]. *)
Definition toString10 (n : Z) : string :=
  DecimalString.NilZero.string_of_int (Z.to_int n).

Record SelectItem : Type := { label : string; value : string }.

Definition playerToSelectItem (player : Player) : SelectItem :=
  {| label := name player; value := toString10 (user_id player) |}.

(** The state behind the timeline: the [filters] object that
    [TimelineFilters] mutates, the [checked] state of each
    [ToggleButton], and the [highlights] state of [HighlightsList]. *)
Record Timeline : Type := {
  filters : Filters;
  checked : Category → bool;
  highlights : list Entry
}.

Definition set_filters (f : Filters) (st : Timeline) : Timeline :=
  {| filters := f; checked := checked st; highlights := highlights st |}.

Definition set_highlights (hs : list Entry) (st : Timeline) : Timeline :=
  {| filters := filters st; checked := checked st; highlights := hs |}.

(** [toggle()] of the button [c]. *)
Definition toggle_checked (c : Category) (st : Timeline) : Timeline :=
  {| filters := filters st;
     checked := λ c', if decide (c' = c) then negb (checked st c') else checked st c';
     highlights := highlights st |}.


Section WithRegExp.

Variable RegExp : Type.
Variable RegExp_i : string → result RegExp.
Variable test : RegExp → string → bool.

(** [gameSummary.highlights] *)
Variable all : list Entry.

(** The first render: [useState] of the filters, of each toggle and of
    the highlights. *)
Definition initial : Timeline :=
  {| filters := initial_filters; checked := λ _, true; highlights := all |}.

(** [onChange(filters)], that is [recomputeHighlights(filters)] with
    its [setHighlights]. *)
Definition onChange : ST Timeline unit := λ st,
  match recomputeHighlights RegExp RegExp_i test all (filters st) with
  | Ok hs => (Ok tt, set_highlights hs st)
  | Throw e => (Throw e, st)
  end.

(** [setVisibility(prop, visible)] *)
Definition setVisibility (c : Category) (b : bool) : ST Timeline unit :=
  modify (λ st, set_filters (set_visible c b (filters st)) st);;
  onChange.

(** [onClick] of a [ToggleButton]: [onSelect(!checked); toggle()]. *)
Definition click (c : Category) : ST Timeline unit :=
  now_checked ← gets (λ st, checked st c);
  setVisibility c (negb now_checked);;
  modify (toggle_checked c).

(** [onChange] of the search field. *)
Definition search (text : string) : ST Timeline unit :=
  modify (λ st, set_filters (set_chatSearch text (filters st)) st);;
  onChange.




(** The pattern of the search field: none, a compiled one, or the
    exception of [new RegExp]. *)
Definition pattern (f : Filters) : result (option RegExp) :=
  if bool_decide (chatSearch f ≠ "") then
    match RegExp_i (chatSearch f) with
    | Ok regex => Ok (Some regex)
    | Throw e => Throw e
    end
  else Ok None.

(** All the filters on one entry. *)
Definition passes (regex : option RegExp) (f : Filters) (h : Entry) : bool :=
  (if (0 <? length (playerIds f))%nat
   then involves_selected (playerIds f) h else true) &&
  (if regex is Some r then chat_matches RegExp test r h else true) &&
  (visibleKillfeed f || negb (is_Kill (event h))) &&
  (visibleCaptures f || negb (is_PointCaptured (event h))) &&
  (visibleChat f || negb (is_ChatMessage (event h))) &&
  (visibleConnectionMessages f || negb (is_connection (event h))) &&
  (visibleKillstreaks f || negb (is_killstreak (event h))) &&
  (visibleRounds f || negb (is_round (event h))) &&
  (visibleAirshots f || negb (is_airshot (event h))).



End WithRegExp.

End TimelineFilters.

(* ===================================================================== *)
(** ** [src/views/demoDetails/PlayerList]: the two columns *)
(* ===================================================================== *)

Module PlayerList.

Section Teams.

(** Modelled from the spec: the declaration of [PlayerSummary] is not
    part of the sources; the component reads [player.team] only, so the
    type and that field are parameters. *)
Variable PlayerSummary : Type.
Variable team : PlayerSummary → string.

(** The three arrays that the component fills. *)
Record Teams : Type := {
  redPlayers : list PlayerSummary;
  bluPlayers : list PlayerSummary;
  others : list PlayerSummary
}.

(** The callback of [gameSummary.players.forEach]. *)
Definition place (acc : Teams) (player : PlayerSummary) : Teams :=
  if bool_decide (team player = "red") then
    {| redPlayers := redPlayers acc ++ [player];
       bluPlayers := bluPlayers acc; others := others acc |}
  else if bool_decide (team player = "blue") then
    {| redPlayers := redPlayers acc;
       bluPlayers := bluPlayers acc ++ [player]; others := others acc |}
  else
    {| redPlayers := redPlayers acc; bluPlayers := bluPlayers acc;
       others := others acc ++ [player] |}.

(** The arrays after the loop. *)
Definition teams (players : list PlayerSummary) : Teams :=
  foldl place {| redPlayers := []; bluPlayers := []; others := [] |} players.

End Teams.

End PlayerList.

(* ===================================================================== *)
(** ** [DemoList]: order, sizes and selection *)
(* ===================================================================== *)

From Stdlib Require Sorted.

Module DemoList.

(** An element of [selectedRows]: a hole of the array, [undefined], or
    a boolean. *)
Inductive slot : Type := Hole | Undefined | Flag (b : bool).

Global Instance slot_eq_dec : EqDecision slot.
Proof. solve_decision. Defined.

(** ToBoolean of [selectedRows[index]]; out of range is [undefined]. *)
Definition selected (rows : list slot) (index : nat) : bool :=
  match rows !! index with
  | Some (Flag b) => b
  | _ => false
  end.

(** [[...rows]]: iteration turns a hole into [undefined]. *)
Definition spread (rows : list slot) : list slot :=
  (λ s, match s with Hole => Undefined | _ => s end) <$> rows.

(** [rows[index] = v]: past the end the array grows, with holes up to
    [index]. *)
Definition assign (rows : list slot) (index : nat) (v : slot) : list slot :=
  if bool_decide (index < length rows)%nat then <[index := v]> rows
  else rows ++ replicate (index - length rows) Hole ++ [v].

(** The updater that [handleRowClick] hands to [setSelectedRows]. *)
Definition toggleRow (index : nat) (oldSelectedIndices : list slot)
    : list slot :=
  let newSelectedIndices := spread oldSelectedIndices in
  assign newSelectedIndices index
    (Flag (negb (selected newSelectedIndices index))).

(** [Array(n).fill(false)], the value of the reset effect. *)
Definition reset (n : nat) : list slot := replicate n (Flag false).

(** [selectedRows.reduce((total, value) => total + Number(value), 0)]:
    [reduce] skips holes, [Number(undefined)] is NaN, here [None]. *)
Definition selectedDemoCount (rows : list slot) : option Z :=
  foldl (λ total s,
           match s with
           | Hole => total
           | Undefined => None
           | Flag b => (λ t, t + (if b then 1 else 0)) <$> total
           end) (Some 0) rows.

(** What a click on a row leads to. *)
Inductive clicked : Type :=
| Rows (selectedRows : list slot)
| Navigate (to : string).

Section WithDemo.

(** Modelled from the spec: the declaration of [Demo] that this
    component imports is not part of the sources; it reads [birthtime],
    [filesize] and [name], so the type and these fields are parameters. *)
Variable Demo : Type.
Variable birthtime : Demo → Z.
Variable filesize : Demo → Z.
Variable name : Demo → string.

(** [encodeURIComponent] *)
Variable encodeURIComponent : string → string.

(** One step of the sort: [x] goes in front of the first demo that is
    not younger than it is old, that is, behind every demo with a
    greater [birthtime] and before those with the same. *)
Fixpoint insert_demo (x : Demo) (sorted : list Demo) : list Demo :=
  match sorted with
  | [] => [x]
  | y :: rest =>
      if birthtime y <=? birthtime x then x :: y :: rest
      else y :: insert_demo x rest
  end.

(** [[...demos].sort((a, b) => b.birthtime - a.birthtime)].  The sort
    of an array is stable and this comparator is a total preorder, so
    the result is determined; insertion from the right computes it. *)
Definition sortedDemos (demos : list Demo) : list Demo :=
  foldr insert_demo [] demos.

(** [sortedDemos.reduce((total, demo) => total + demo.filesize, 0)] *)
Definition totalFileSize (sorted : list Demo) : Z :=
  foldl (λ total demo, total + filesize demo) 0 sorted.

(** The reduction of [selectedFileSize] from [index] on. *)
Fixpoint selected_from (rows : list slot) (index : nat) (total : Z)
    (sorted : list Demo) : Z :=
  match sorted with
  | [] => total
  | demo :: rest =>
      selected_from rows (S index)
        (if selected rows index then total + filesize demo else total) rest
  end.

Definition selectedFileSize (sorted : list Demo) (rows : list slot) : Z :=
  selected_from rows 0 0 sorted.

(** [handleRowClick(index)]: the new [selectedRows] in selection mode,
    else the route navigated to; [sortedDemos[index].name] throws when
    there is no such row. *)
Definition handleRowClick (selectionMode : bool) (sorted : list Demo)
    (rows : list slot) (index : nat) : result clicked :=
  if selectionMode then Ok (Rows (toggleRow index rows))
  else
    match sorted !! index with
    | Some demo => Ok (Navigate (encodeURIComponent (name demo)))
    | None => Throw TypeError
    end.

End WithDemo.

End DemoList.

(* ===================================================================== *)
(** ** Stand-ins for [JSON] and [RegExp] used by the examples *)
(* ===================================================================== *)

Module Samples.
Import Demos Highlights.

Definition quoted (s : string) : string :=
  String "034" s +:+ String "034" "".

Fixpoint joined (sep : string) (items : list string) : string :=
  match items with
  | [] => ""
  | [s] => s
  | s :: rest => s +:+ sep +:+ joined sep rest
  end.

Definition event_text (e : DemoEvent) : string :=
  "{" +:+ quoted "tick" +:+ ":" +:+ TimelineFilters.toString10 (Demos.tick e)
  +:+ "," +:+ quoted "name" +:+ ":" +:+ quoted (Demos.name e)
  +:+ "," +:+ quoted "value" +:+ ":" +:+ quoted (value e) +:+ "}".

(** A stand-in for [JSON.stringify] on [{ events, tags }]: the compact
    text, without the indentation that the code asks for and
    [JSON.parse] skips; right for strings that need no escaping. *)
Definition stringify_plain (events : list DemoEvent) (tags : list string)
    : string :=
  "{" +:+ quoted "events" +:+ ":[" +:+ joined "," (event_text <$> events)
  +:+ "]," +:+ quoted "tags" +:+ ":[" +:+ joined "," (quoted <$> tags) +:+ "]}".

(** The fields of the object that [JSON.parse] makes of the text of
    [bookmark] with the tag "best"; 100 is 25 * 2^2. *)
Definition bookmark_fields : list (string * json) :=
  [("events",
    JArray [JObject [("tick", JNumber (S754_finite false 25 2));
                     ("name", JString "Bookmark");
                     ("value", JString "clutch")]]);
   ("tags", JArray [JString "best"])].

(** [JSON.parse] on the one text that the example writes. *)
Definition parse_bookmark (s : string) : result json :=
  if bool_decide (s = stringify_plain [DemoMethods.bookmark] ["best"])
  then Ok (JObject bookmark_fields) else Throw SyntaxError.

(** A stand-in for [RegExp]: the source taken literally, [test] looks
    for it anywhere in the text. *)
Definition literal (source : string) : result string := Ok source.

Definition occurs (regex text : string) : bool :=
  match String.index 0 regex text with
  | Some _ => true
  | None => false
  end.

(** The sample match followed by two chat messages of player 7. *)
Definition chat_timeline : list Entry :=
  Examples.match_timeline ++
  [ {| event := ChatMessage (Examples.player 7) "gg wp"; Highlights.tick := 50 |};
    {| event := ChatMessage (Examples.player 7) "rematch?"; Highlights.tick := 60 |} ].

(** Player 7 selected, "gg" searched for, the rounds hidden. *)
Definition narrow_filters : Filters :=
  {| playerIds := ["7"]; chatSearch := "gg";
     visibleKillfeed := true; visibleCaptures := true; visibleChat := true;
     visibleConnectionMessages := true; visibleKillstreaks := true;
     visibleRounds := false; visibleAirshots := true |}.

End Samples.


(* ===================================================================== *)
(** ** Properties of the sidecar file *)
(* ===================================================================== *)

Import Demos Examples.

(** Unfold the sequencing of [ST] in the goal, and with [run] the
    handlers too. *)
Ltac seq :=
  unfold mbind, mret, ST_bind, ST_ret, throw, attempt, gets, modify,
    of_result, log_, fs_read, fs_update, fs_open; simpl.
Ltac run := unfold catch; seq.

Lemma has_code_spec (e : error) (c : string) :
  has_code e c = true ↔ e = SystemError c.
Proof.
  unfold has_code. destruct e; try (split; [done | intros [=]]).
  rewrite bool_decide_eq_true. split; [by intros -> | by intros [= ->]].
Qed.

Lemma readFileSync_absent (t : gmap string node) (p : string) :
  t !! p = None → readFileSync t p = Throw (SystemError "ENOENT").
Proof.
  intros H. unfold readFileSync, lookup_follow. simpl. by rewrite H.
Qed.

Section Sidecar.

Variable JSON_parse : string → result json.

(** The second [try] of [readEventsAndTags] swallows every exception. *)
Lemma parse_caught (content : list byte) (w : world) :
  ∃ v, catch (parse_events_and_tags JSON_parse content)
             (λ _, mret empty_annotations) w = (Ok v, w).
Proof.
  unfold parse_events_and_tags. run.
  destruct (JSON_parse _) as [v|?]; simpl; [|by eexists].
  destruct (get_property v "events"); simpl; [|by eexists].
  destruct (get_property v "tags"); simpl; by eexists.
Qed.

(** Content that [JSON.parse] accepts: the two properties of an object,
    each replaced by [[]] when missing or falsy, and nothing for any
    other value ([null] included, whose property access throws inside
    the [try]). *)
Lemma readEventsAndTags_parsed (jsonPath : string) (w : world)
    (content : list byte) (v : json) :
  readFileSync (fs w) jsonPath = Ok content →
  JSON_parse (string_of_list_byte content) = Ok v →
  fst (readEventsAndTags JSON_parse jsonPath w) =
  Ok match v with
     | JObject fields =>
         (or_empty_array (assoc "events" fields),
          or_empty_array (assoc "tags" fields))
     | _ => empty_annotations
     end.
Proof.
  intros Hc Hv.
  unfold readEventsAndTags, mbind, ST_bind, log_, modify, attempt, fs_read.
  simpl. rewrite Hc. simpl. unfold catch, parse_events_and_tags. seq.
  rewrite Hv. simpl. by destruct v.
Qed.

(** What [readEventsAndTags] does to the world: one log line. *)
Lemma readEventsAndTags_world (jsonPath : string) (w : world) :
  snd (readEventsAndTags JSON_parse jsonPath w) =
  add_log (Debug, LookingForEventsFile jsonPath) w.
Proof.
  unfold readEventsAndTags, mbind, ST_bind, log_, modify, attempt, fs_read.
  simpl. destruct (readFileSync (fs w) jsonPath) as [c|e]; simpl.
  - by destruct (parse_caught c (add_log (Debug, LookingForEventsFile jsonPath) w))
      as [v ->].
  - by destruct (has_code e "ENOENT").
Qed.

(** C9: reading the sidecar yields empty events and tags, without an
    exception, when the file is missing and when [JSON.parse] rejects
    its content; the call throws exactly when reading the file fails
    with an error other than ENOENT, and then throws that error. *)
Theorem readEventsAndTags_tolerant (jsonPath : string) (w : world) :
  let r := fst (readEventsAndTags JSON_parse jsonPath w) in
  (readFileSync (fs w) jsonPath = Throw (SystemError "ENOENT") →
     r = Ok empty_annotations) ∧
  (∀ content e,
     readFileSync (fs w) jsonPath = Ok content →
     JSON_parse (string_of_list_byte content) = Throw e →
     r = Ok empty_annotations) ∧
  (∀ e, r = Throw e ↔
     readFileSync (fs w) jsonPath = Throw e ∧ e ≠ SystemError "ENOENT").
Proof.
  unfold readEventsAndTags, mbind, ST_bind, log_, modify, attempt, fs_read.
  simpl. split; [|split].
  - intros ->. reflexivity.
  - intros content e -> He. unfold catch, parse_events_and_tags. run.
    by rewrite He.
  - intros e. destruct (readFileSync (fs w) jsonPath) as [c|e']; simpl.
    + destruct (parse_caught c (add_log (Debug, LookingForEventsFile jsonPath) w))
        as [v ->]. simpl. split; [done | by intros [? _]].
    + destruct (has_code e' "ENOENT") eqn:Hc; simpl.
      * apply has_code_spec in Hc as ->.
        split; [done | intros [[= <-] ?]; done].
      * split.
        -- intros [= ->]. split; [done|]. intros ->.
           by rewrite (proj2 (has_code_spec _ _) eq_refl) in Hc.
        -- by intros [[= ->] _].
Qed.

End Sidecar.

(** The three cases of C9 on [boot]: no file at the path, a file that is
    not JSON, and a directory in place of the file. *)
Lemma readEventsAndTags_tolerant_witness :
  fst (readEventsAndTags no_json "/demos/b.json" boot) = Ok empty_annotations ∧
  fst (readEventsAndTags no_json "/demos/a.json" boot) = Ok empty_annotations ∧
  fst (readEventsAndTags no_json "/demos" boot) = Throw (SystemError "EISDIR").
Proof.
  split; [|split].
  - apply (readEventsAndTags_tolerant no_json "/demos/b.json" boot).
    vm_compute. reflexivity.
  - apply (proj1 (proj2 (readEventsAndTags_tolerant no_json "/demos/a.json" boot))
             sidecar SyntaxError); vm_compute; reflexivity.
  - apply (proj2 (proj2 (readEventsAndTags_tolerant no_json "/demos" boot))).
    split; [vm_compute; reflexivity | discriminate].
Defined.

Section SidecarWrite.

Variable JSON_stringify : list DemoEvent → list string → string.

(** With at least one event and [overwrite = false], a path that is
    taken is left as it is: the call logs and returns. *)
Lemma writeEventsAndTagsFile_exclusive (events : list DemoEvent)
    (tags : list string) (jsonPath : string) (w : world) :
  events ≠ [] → is_Some (fs w !! jsonPath) →
  writeEventsAndTagsFile JSON_stringify events tags jsonPath false w =
  (Ok tt, add_log (Debug, EventsFileExists jsonPath)
            (add_log (Debug, WritingEventsFile jsonPath) w)).
Proof.
  intros Hev [n Hn]. unfold writeEventsAndTagsFile.
  destruct events as [|ev events]; [done|]. run.
  unfold openSync_wx. by rewrite Hn.
Qed.

(** With at least one event and [overwrite = true], a file at the path
    is replaced by the serialized annotations. *)
Lemma writeEventsAndTagsFile_overwrite (events : list DemoEvent)
    (tags : list string) (jsonPath : string) (w : world)
    (old : list byte) (b : Z) :
  events ≠ [] → fs w !! jsonPath = Some (File old b) →
  writeEventsAndTagsFile JSON_stringify events tags jsonPath true w =
  (Ok tt,
   set_fs (<[jsonPath := File (list_byte_of_string (JSON_stringify events tags)) b]>
             (fs w))
          (add_log (Debug, WritingEventsFile jsonPath) w)).
Proof.
  intros Hev Hn. unfold writeEventsAndTagsFile.
  destruct events as [|ev events]; [done|]. run.
  unfold openSync_w. simpl. rewrite Hn. simpl.
  unfold writeSync. rewrite lookup_insert_eq. simpl.
  by rewrite insert_insert_eq.
Qed.

(** C1, at the failing input: no events, one tag, a sidecar on disk.
    The guard looks at [events] alone, so the file is removed and the
    tag is not written. *)
Theorem writeEventsAndTagsFile_drops_tags :
  fs boot !! "/demos/a.json" = Some (File sidecar 2000) ∧
  ∃ w', writeEventsAndTagsFile JSON_stringify [] ["clutch"] "/demos/a.json" true boot
        = (Ok tt, w') ∧
        fs w' !! "/demos/a.json" = None ∧
        log w' = [(Debug, DeletingEventsFile "/demos/a.json")].
Proof.
  split; [vm_compute; reflexivity|]. eexists. split; [reflexivity|].
  split; vm_compute; reflexivity.
Qed.

(** C4, at the failing input: no events, one tag, [overwrite = false]
    and a sidecar on disk.  The file does not survive the call. *)
Theorem writeEventsAndTagsFile_exclusive_deletes :
  fs boot !! "/demos/a.json" = Some (File sidecar 2000) ∧
  ∃ w', writeEventsAndTagsFile JSON_stringify [] ["clutch"] "/demos/a.json" false boot
        = (Ok tt, w') ∧
        fs w' !! "/demos/a.json" = None ∧
        log w' = [(Debug, DeletingEventsFile "/demos/a.json")].
Proof.
  split; [vm_compute; reflexivity|]. eexists. split; [reflexivity|].
  split; vm_compute; reflexivity.
Qed.

End SidecarWrite.

(* ===================================================================== *)
(** ** Properties of the header reader *)
(* ===================================================================== *)

Lemma HEADER_SIZE_value : HEADER_SIZE = 1072%nat.
Proof. reflexivity. Qed.

(** [resolve] ends on what the table holds at the path it returns,
    and that is not a link. *)
Lemma resolve_lookup (fuel : nat) (t : gmap string node) (p q : string)
    (o : option node) :
  resolve fuel t p = Ok (q, o) →
  t !! q = o ∧ ∀ target, o ≠ Some (Symlink target).
Proof.
  revert p. induction fuel as [|fuel IH]; intros p; simpl.
  - destruct (t !! p) as [[]|] eqn:Hp; intros [= <- <-]; by rewrite Hp.
  - destruct (t !! p) as [[]|] eqn:Hp; try (intros [= <- <-]; by rewrite Hp).
    apply IH.
Qed.

Lemma lookup_follow_lookup (t : gmap string node) (p q : string) (n : node) :
  lookup_follow t p = Ok (q, n) →
  t !! q = Some n ∧ ∀ target, n ≠ Symlink target.
Proof.
  unfold lookup_follow.
  destruct (resolve MAXSYMLINKS t p) as [[q' [n'|]]|] eqn:Hr; [|done..].
  intros [= -> ->]. apply resolve_lookup in Hr as [? Hn].
  split; [done|]. intros target ->. by apply (Hn target).
Qed.

(** Opening and reading a regular file reached through [filename]. *)
Lemma open_read_file (t : gmap string node) (filename q : string)
    (content : list byte) (b : Z) (len : nat) :
  lookup_follow t filename = Ok (q, File content b) →
  openSync_r t filename = Ok q ∧ readSync t q len = Ok (take len content).
Proof.
  intros H. unfold openSync_r, readSync. rewrite H. split; [done|].
  apply lookup_follow_lookup in H as [-> _]. done.
Qed.

Lemma read_bytes_ok (n off : nat) (bytes : list byte) :
  (off + n ≤ length bytes)%nat →
  read_bytes n {| buf := bytes; offset := off |} =
  (Ok (take n (drop off bytes)), {| buf := bytes; offset := off + n |}).
Proof.
  intros H. unfold read_bytes. simpl. by rewrite bool_decide_eq_true_2.
Qed.

Lemma readInt_ok (off : nat) (bytes : list byte) :
  (off + 4 ≤ length bytes)%nat →
  ∃ v, readInt {| buf := bytes; offset := off |} =
       (Ok v, {| buf := bytes; offset := off + 4 |}).
Proof.
  intros H. unfold readInt, mbind, ST_bind. rewrite read_bytes_ok by done.
  by eexists.
Qed.

Lemma readFloat_ok (off : nat) (bytes : list byte) :
  (off + 4 ≤ length bytes)%nat →
  ∃ v, readFloat {| buf := bytes; offset := off |} =
       (Ok v, {| buf := bytes; offset := off + 4 |}).
Proof.
  intros H. unfold readFloat, mbind, ST_bind. rewrite read_bytes_ok by done.
  by eexists.
Qed.

Lemma readString_ok (n off : nat) (bytes : list byte) :
  (off + n ≤ length bytes)%nat →
  ∃ v, readString n {| buf := bytes; offset := off |} =
       (Ok v, {| buf := bytes; offset := off + n |}).
Proof.
  intros H. unfold readString, mbind, ST_bind. rewrite read_bytes_ok by done.
  by eexists.
Qed.

(** One read of [read_header_fields] that stays inside the buffer. *)
Ltac read_field Hlen :=
  match goal with
  | |- context [readInt {| buf := ?bs; offset := ?o |}] =>
      let H := fresh in
      destruct (readInt_ok o bs) as [? H];
      [rewrite Hlen; vm_compute; lia | rewrite H; clear H]
  | |- context [readFloat {| buf := ?bs; offset := ?o |}] =>
      let H := fresh in
      destruct (readFloat_ok o bs) as [? H];
      [rewrite Hlen; vm_compute; lia | rewrite H; clear H]
  | |- context [readString ?n {| buf := ?bs; offset := ?o |}] =>
      let H := fresh in
      destruct (readString_ok n o bs) as [? H];
      [rewrite Hlen; vm_compute; lia | rewrite H; clear H]
  end; cbv beta iota.

(** Ten reads after the stamp take the cursor from 8 to the end of a
    buffer of [HEADER_SIZE] bytes: none of them is out of bounds. *)
Lemma read_header_fields_total (bytes : list byte) :
  length bytes = HEADER_SIZE →
  ∃ h, read_header_fields {| buf := bytes; offset := 8 |} =
       (Ok h, {| buf := bytes; offset := HEADER_SIZE |}).
Proof.
  intros Hlen. unfold read_header_fields, mbind, ST_bind.
  do 10 read_field Hlen. eexists. reflexivity.
Qed.

(** A full buffer decodes to a header or is refused for its stamp. *)
Lemma decode_header_full (filename : string) (bytes : list byte) (w : world) :
  length bytes = HEADER_SIZE →
  (∃ h, decode_header filename bytes w = (Ok h, w)) ∨
  (∃ w', decode_header filename bytes w = (Throw InvalidDemoFileError, w')).
Proof.
  intros Hlen. unfold decode_header.
  destruct (readString_ok 8 0 bytes) as [stamp ->];
    [rewrite Hlen; vm_compute; lia|].
  cbv beta iota. case_bool_decide.
  - right. run. by eexists.
  - left. destruct (read_header_fields_total bytes Hlen) as [h Hh].
    simpl. rewrite Hh. run. by eexists.
Qed.

(** C2, amended: the reader asks for [HEADER_SIZE] = 1072 bytes at
    offset 0; a file with fewer bytes is refused with
    [InvalidDemoFileError], and of a longer file only the first 1072
    bytes are decoded. *)
Theorem readFileHeader_reads_HEADER_SIZE (filename q : string)
    (content : list byte) (b : Z) (w : world) :
  lookup_follow (fs w) filename = Ok (q, File content b) →
  HEADER_SIZE = (8 + 4 + 4 + 260 * 4 + 4 * 4)%nat ∧
  HEADER_SIZE = 1072%nat ∧
  (length content < HEADER_SIZE →
     fst (readFileHeader filename w) = Throw InvalidDemoFileError)%nat ∧
  (HEADER_SIZE ≤ length content →
     readFileHeader filename w =
     decode_header filename (take HEADER_SIZE content)
       (add_log (Debug, ReadingFileHeader filename) w))%nat.
Proof.
  intros H. split; [reflexivity|]. split; [reflexivity|].
  destruct (open_read_file (fs w) filename q content b HEADER_SIZE H)
    as [Ho Hr].
  unfold readFileHeader. seq. rewrite Ho. simpl. rewrite Hr. simpl.
  split; intros Hlen.
  - rewrite bool_decide_eq_true_2; [done|].
    rewrite length_take. lia.
  - rewrite bool_decide_eq_false_2; [done|].
    rewrite length_take. lia.
Qed.

(** C2 on [boot]: the 792-byte file is refused, the full one is read. *)
Lemma readFileHeader_reads_HEADER_SIZE_witness :
  fst (readFileHeader "/demos/short.dem" boot) = Throw InvalidDemoFileError ∧
  readFileHeader "/link.dem" boot =
  decode_header "/link.dem" (take HEADER_SIZE valid_demo)
    (add_log (Debug, ReadingFileHeader "/link.dem") boot).
Proof.
  split.
  - apply (readFileHeader_reads_HEADER_SIZE "/demos/short.dem"
             "/demos/short.dem" demo_792 4000 boot).
    + vm_compute. reflexivity.
    + vm_compute. lia.
  - apply (readFileHeader_reads_HEADER_SIZE "/link.dem"
             "/demos/a.dem" valid_demo 1000 boot).
    + vm_compute. reflexivity.
    + vm_compute. lia.
Defined.

(** C2 as stated, refuted: a file of exactly 792 bytes that starts with
    the stamp is refused, the reader having asked for 1072 bytes. *)
Lemma readFileHeader_792_refused :
  HEADER_SIZE ≠ 792%nat ∧
  length demo_792 = 792%nat ∧
  lookup_follow (fs boot) "/demos/short.dem"
    = Ok ("/demos/short.dem", File demo_792 4000) ∧
  readFileHeader "/demos/short.dem" boot =
  (Throw InvalidDemoFileError,
   add_log (Warn, ShortRead "/demos/short.dem" 792 1072)
     (add_log (Debug, ReadingFileHeader "/demos/short.dem") boot)).
Proof.
  split; [discriminate|]. split; [reflexivity|].
  split; vm_compute; reflexivity.
Qed.

(* ===================================================================== *)
(** ** Properties of the cache *)
(* ===================================================================== *)

(** [readFileHeader] only writes to the log. *)
Lemma readFileHeader_world (filename : string) (w : world) :
  ∃ l, snd (readFileHeader filename w) =
       {| fs := fs w; clock := clock w;
          log := log w ++ (Debug, ReadingFileHeader filename) :: l;
          heap := heap w; demoCache := demoCache w |} ∧
       header_reads l = 0%nat ∧
       (∀ h, fst (readFileHeader filename w) = Ok h → l = []).
Proof.
  unfold readFileHeader, decode_header. seq.
  destruct (openSync_r (fs w) filename) as [q|e]; simpl;
    [destruct (readSync (fs w) q HEADER_SIZE) as [bytes|e]; simpl;
      [case_bool_decide as Hlen; simpl;
        [|destruct (readString 8 _) as [[stamp|e] sr]; simpl;
          [case_bool_decide; run|]]|]|].
  all: try (exists []; unfold add_log; simpl; rewrite <- ?app_assoc;
            by repeat split).
  all: eexists [_]; unfold add_log; simpl; rewrite <- ?app_assoc;
       by repeat split.
Qed.

Lemma readFileHeader_fst (filename : string) (w1 w2 : world) :
  fs w1 = fs w2 →
  fst (readFileHeader filename w1) = fst (readFileHeader filename w2).
Proof.
  intros Hfs. unfold readFileHeader, decode_header. seq. rewrite Hfs.
  destruct (openSync_r (fs w2) filename) as [q|e]; simpl; [|done].
  destruct (readSync (fs w2) q HEADER_SIZE) as [bytes|e]; simpl; [|done].
  case_bool_decide; simpl; [done|].
  destruct (readString 8 _) as [[stamp|e] sr]; simpl; [|done].
  by case_bool_decide.
Qed.

Section Cache.

Variable JSON_parse : string → result json.

Lemma readEventsAndTags_fst (jsonPath : string) (w1 w2 : world) :
  fs w1 = fs w2 →
  fst (readEventsAndTags JSON_parse jsonPath w1) =
  fst (readEventsAndTags JSON_parse jsonPath w2).
Proof.
  intros Hfs.
  unfold readEventsAndTags, mbind, ST_bind, log_, modify, attempt, fs_read.
  simpl. rewrite Hfs.
  destruct (readFileSync (fs w2) jsonPath) as [c|e]; simpl.
  - unfold catch, parse_events_and_tags. seq.
    destruct (JSON_parse _) as [v|?]; simpl; [|done].
    destruct (get_property v "events"); simpl; [|done].
    by destruct (get_property v "tags").
  - by destruct (has_code e "ENOENT").
Qed.

Lemma getDemo_no_path (filename : string) (w : world) (e : error) :
  realpathSync (fs w) filename = Throw e →
  getDemo JSON_parse filename w = (Throw e, w).
Proof. intros H. unfold getDemo. seq. by rewrite H. Qed.

Lemma getDemo_hit (filename realPath : string) (w : world) (d : nat) :
  realpathSync (fs w) filename = Ok realPath →
  demoCache w !! realPath = Some d →
  getDemo JSON_parse filename w = (Ok d, w).
Proof. intros H Hc. unfold getDemo. seq. rewrite H. simpl. by rewrite Hc. Qed.

Lemma getDemo_miss (filename realPath : string) (w : world) :
  realpathSync (fs w) filename = Ok realPath →
  demoCache w !! realPath = None →
  getDemo JSON_parse filename w =
  match statSync (fs w) realPath with
  | Throw e => (Throw e, w)
  | Ok stats =>
      let w1 := add_log (Debug, LookingForEventsFile (getJSONPath realPath)) w in
      match fst (readEventsAndTags JSON_parse (getJSONPath realPath) w) with
      | Throw e => (Throw e, w1)
      | Ok annotations =>
          match readFileHeader realPath w1 with
          | (Throw e, w2) => (Throw e, w2)
          | (Ok h, w2) =>
              (Ok (length (heap w2)),
               set_demoCache (<[realPath := length (heap w2)]> (demoCache w2))
                 (set_heap (heap w2 ++ [built realPath stats annotations h]) w2))
          end
      end
  end.
Proof.
  intros H Hc. unfold getDemo. seq. rewrite H. simpl. rewrite Hc.
  destruct (statSync (fs w) realPath) as [stats|e]; simpl; [|done].
  pose proof (readEventsAndTags_world JSON_parse (getJSONPath realPath) w) as Hw.
  destruct (readEventsAndTags JSON_parse (getJSONPath realPath) w)
    as [[[ev tg]|e] w1]; simpl in *; subst w1; [|done].
  destruct (readFileHeader realPath _) as [[h|e] w2]; simpl; [|done].
  unfold new_Demo. simpl. done.
Qed.

(** C8: when [getDemo] throws, the cache, the heap and the files are as
    before, and the exception is the one raised by the first layer that
    failed: canonicalization, [statSync], the sidecar read or the
    header reader. *)
Theorem getDemo_failure_leaves_cache (filename : string) (w w' : world)
    (e : error) :
  getDemo JSON_parse filename w = (Throw e, w') →
  demoCache w' = demoCache w ∧ heap w' = heap w ∧ fs w' = fs w ∧
  (realpathSync (fs w) filename = Throw e ∨
   ∃ realPath,
     realpathSync (fs w) filename = Ok realPath ∧
     demoCache w !! realPath = None ∧
     (statSync (fs w) realPath = Throw e ∨
      fst (readEventsAndTags JSON_parse (getJSONPath realPath) w) = Throw e ∨
      fst (readFileHeader realPath
             (add_log (Debug, LookingForEventsFile (getJSONPath realPath)) w))
        = Throw e)).
Proof.
  destruct (realpathSync (fs w) filename) as [realPath|e0] eqn:Hrp.
  2: { rewrite (getDemo_no_path _ _ _ Hrp). intros [= -> ->]. auto. }
  destruct (demoCache w !! realPath) as [d|] eqn:Hc.
  { by rewrite (getDemo_hit _ _ _ _ Hrp Hc). }
  rewrite (getDemo_miss _ _ _ Hrp Hc).
  destruct (statSync (fs w) realPath) as [stats|e0] eqn:Hst.
  2: { intros [= -> ->]. repeat split; try done. right. eauto 10. }
  cbv zeta.
  destruct (fst (readEventsAndTags _ _ w)) as [ann|e0] eqn:Hann.
  2: { intros [= -> <-]. repeat split; try done. right. eauto 10. }
  destruct (readFileHeader_world realPath
              (add_log (Debug, LookingForEventsFile (getJSONPath realPath)) w))
    as (l & Hw2 & _).
  destruct (readFileHeader realPath _) as [[h|e0] w2] eqn:Hh; [done|].
  intros [= -> ->]. simpl in Hw2. subst w'. simpl.
  repeat split; try done. right. exists realPath.
  split; [done|]. split; [done|]. right. right. by rewrite Hh.
Qed.

(** C7: two paths with the same canonical path get the same object.
    Once the first call has returned, the second returns the same
    reference and leaves the world, log included, as it was; the cache
    holds the object under the canonical path; over both calls the
    header is read once when the path was not cached, never when it
    was. *)
Theorem getDemo_same_instance (path1 path2 realPath : string) (w w1 : world)
    (d : nat) :
  realpathSync (fs w) path1 = Ok realPath →
  realpathSync (fs w) path2 = Ok realPath →
  getDemo JSON_parse path1 w = (Ok d, w1) →
  getDemo JSON_parse path2 w1 = (Ok d, w1) ∧
  demoCache w1 !! realPath = Some d ∧
  header_reads (log w1) =
    (header_reads (log w) +
     match demoCache w !! realPath with Some _ => 0 | None => 1 end)%nat.
Proof.
  intros H1 H2.
  destruct (demoCache w !! realPath) as [d0|] eqn:Hc.
  { rewrite (getDemo_hit _ _ _ _ H1 Hc). intros [= -> ->].
    rewrite (getDemo_hit _ _ _ _ H2 Hc). split; [done|]. split; [done|lia]. }
  rewrite (getDemo_miss _ _ _ H1 Hc).
  destruct (statSync (fs w) realPath) as [stats|e0]; [|done]. cbv zeta.
  destruct (fst (readEventsAndTags _ _ w)) as [ann|e0]; [|done].
  destruct (readFileHeader_world realPath
              (add_log (Debug, LookingForEventsFile (getJSONPath realPath)) w))
    as (l & Hw2 & _ & Hl).
  destruct (readFileHeader realPath _) as [[h|e0] w2] eqn:Hh; [|done].
  intros [= <- <-]. simpl in Hw2. rewrite (Hl h eq_refl) in Hw2. subst w2.
  simpl. split; [|split].
  - apply (getDemo_hit _ realPath); simpl; [done|]. apply lookup_insert_eq.
  - apply lookup_insert_eq.
  - unfold header_reads. rewrite <- app_assoc, !List.filter_app, !length_app.
    simpl. lia.
Qed.

End Cache.

(** C8 on [boot]: nothing at the path, and a file that is too short. *)
Lemma getDemo_failure_leaves_cache_witness :
  demoCache (snd (getDemo no_json "/demos/none.dem" boot)) = demoCache boot ∧
  demoCache (snd (getDemo no_json "/demos/short.dem" boot)) = demoCache boot.
Proof.
  split.
  - apply (getDemo_failure_leaves_cache no_json "/demos/none.dem" boot _
             (SystemError "ENOENT")).
    vm_compute. reflexivity.
  - apply (getDemo_failure_leaves_cache no_json "/demos/short.dem" boot _
             InvalidDemoFileError).
    vm_compute. reflexivity.
Defined.

(** C7 on [boot]: the demo through its link, then by its own path. *)
Lemma getDemo_same_instance_witness :
  let w1 := snd (getDemo no_json "/link.dem" boot) in
  getDemo no_json "/demos/a.dem" w1 = (Ok 0%nat, w1) ∧
  demoCache w1 !! "/demos/a.dem" = Some 0%nat ∧
  header_reads (log w1) = 1%nat.
Proof.
  apply (getDemo_same_instance no_json "/link.dem" "/demos/a.dem"
           "/demos/a.dem" boot _ 0%nat).
  - vm_compute. reflexivity.
  - vm_compute. reflexivity.
  - vm_compute. reflexivity.
Defined.

(* ===================================================================== *)
(** ** Properties of the directory scan *)
(* ===================================================================== *)

Section Scan.

Variable JSON_parse : string → result json.
Variable path_join : string → string → string.

Lemma grown_refl (w : world) : grown JSON_parse w w.
Proof.
  split; [done|]. split; [done|]. intros k -> [? [=]].
Qed.

Lemma grown_trans (w1 w2 w3 : world) :
  grown JSON_parse w1 w2 → grown JSON_parse w2 w3 → grown JSON_parse w1 w3.
Proof.
  intros (Hf1 & Hk1 & Hl1) (Hf2 & Hk2 & Hl2). split; [congruence|]. split.
  - eauto.
  - intros k Hnone Hsome.
    destruct (demoCache w2 !! k) as [d|] eqn:Hk.
    + apply Hl1; [done|]. by rewrite Hk.
    + rewrite <- Hf1. by apply Hl2.
Qed.

Lemma grown_add_log (w : world) (e : level * message) :
  grown JSON_parse w (add_log e w).
Proof.
  unfold grown. simpl. split; [done|]. split; [done|]. intros k -> [? [=]].
Qed.

(** On a cache miss [getDemo] returns exactly when the path loads. *)
Lemma getDemo_miss_loads (filename realPath : string) (w : world) :
  realpathSync (fs w) filename = Ok realPath →
  demoCache w !! realPath = None →
  (loads JSON_parse (fs w) realPath = true ∧
   ∃ w', getDemo JSON_parse filename w = (Ok (length (heap w)), w') ∧
         fs w' = fs w ∧
         demoCache w' = <[realPath := length (heap w)]> (demoCache w)) ∨
  (loads JSON_parse (fs w) realPath = false ∧
   ∃ e w', getDemo JSON_parse filename w = (Throw e, w') ∧
           fs w' = fs w ∧ demoCache w' = demoCache w).
Proof.
  intros Hrp Hc. rewrite (getDemo_miss _ _ _ _ Hrp Hc). unfold loads.
  destruct (statSync (fs w) realPath) as [stats|e0]; [|right; eauto 10].
  cbv zeta.
  rewrite (readEventsAndTags_fst JSON_parse _ (bare (fs w)) w eq_refl).
  destruct (fst (readEventsAndTags _ _ w)) as [ann|e0]; [|right; eauto 10].
  rewrite (readFileHeader_fst realPath (bare (fs w))
             (add_log (Debug, LookingForEventsFile (getJSONPath realPath)) w)
             eq_refl).
  destruct (readFileHeader_world realPath
              (add_log (Debug, LookingForEventsFile (getJSONPath realPath)) w))
    as (l & Hw2 & _).
  destruct (readFileHeader realPath _) as [[h|e0] w2]; simpl in *; subst w2.
  - left. split; [done|]. eexists. split; [reflexivity|]. done.
  - right. split; [done|]. eexists _, _. split; [reflexivity|]. done.
Qed.

(** One call of [getDemo]: the world grows; a returned reference is in
    the cache under the canonical path; an exception means that no
    later call on grown worlds can return either. *)
Lemma getDemo_step (filename : string) (w w1 : world) (r : result nat) :
  getDemo JSON_parse filename w = (r, w1) →
  grown JSON_parse w w1 ∧
  ∀ w', grown JSON_parse w1 w' →
        returned (fst (getDemo JSON_parse filename w')) = returned r.
Proof.
  intros Hg.
  destruct (realpathSync (fs w) filename) as [realPath|e0] eqn:Hrp.
  2: { rewrite (getDemo_no_path _ _ _ _ Hrp) in Hg. injection Hg as <- <-.
       split; [apply grown_refl|]. intros w' (Hf & _).
       rewrite <- Hf in Hrp. by rewrite (getDemo_no_path _ _ _ _ Hrp). }
  destruct (demoCache w !! realPath) as [d|] eqn:Hc.
  { rewrite (getDemo_hit _ _ _ _ _ Hrp Hc) in Hg. injection Hg as <- <-.
    split; [apply grown_refl|]. intros w' (Hf & Hk & _).
    rewrite <- Hf in Hrp. by rewrite (getDemo_hit _ _ _ _ _ Hrp (Hk _ _ Hc)). }
  destruct (getDemo_miss_loads _ _ _ Hrp Hc)
    as [(Hl & w2 & Hg2 & Hf2 & Hc2) | (Hl & e & w2 & Hg2 & Hf2 & Hc2)];
    rewrite Hg2 in Hg; injection Hg as <- <-.
  - split.
    + split; [done|]. split.
      * intros k d Hk. rewrite Hc2. rewrite lookup_insert_ne; [done|].
        intros <-. congruence.
      * intros k Hk. rewrite Hc2. rewrite lookup_insert.
        case_decide as Hkk; [by subst k|]. rewrite Hk. by intros [? [=]].
    + intros w' (Hf & Hk & _). rewrite <- Hf2, <- Hf in Hrp.
      assert (demoCache w' !! realPath = Some (length (heap w))) as Hc'.
      { apply Hk. rewrite Hc2. apply lookup_insert_eq. }
      by rewrite (getDemo_hit _ _ _ _ _ Hrp Hc').
  - split.
    + split; [done|]. rewrite Hc2. split; [done|]. intros k -> [? [=]].
    + intros w' (Hf & _ & Hl'). simpl.
      assert (demoCache w' !! realPath = None) as Hc'.
      { destruct (demoCache w' !! realPath) as [d|] eqn:Hd; [|done].
        rewrite Hc2 in Hl'. rewrite Hf2 in Hl'.
        specialize (Hl' realPath Hc). rewrite Hd in Hl'.
        rewrite Hl in Hl'. by specialize (Hl' (mk_is_Some _ _ eq_refl)). }
      rewrite <- Hf2, <- Hf in Hrp, Hl.
      destruct (getDemo_miss_loads _ _ _ Hrp Hc')
        as [(Hl2 & _) | (_ & e' & w3 & -> & _)]; [congruence|done].
Qed.

Lemma getDemo_returns_iff (filename : string) (w : world) :
  is_Some (returned (fst (getDemo JSON_parse filename w))) ↔
  ∃ realPath, realpathSync (fs w) filename = Ok realPath ∧
              (is_Some (demoCache w !! realPath) ∨
               loads JSON_parse (fs w) realPath = true).
Proof.
  destruct (realpathSync (fs w) filename) as [realPath|e0] eqn:Hrp.
  2: { rewrite (getDemo_no_path _ _ _ _ Hrp). simpl. split.
       - by intros [? [=]].
       - by intros (? & [=] & _). }
  destruct (demoCache w !! realPath) as [d|] eqn:Hc.
  { rewrite (getDemo_hit _ _ _ _ _ Hrp Hc). simpl. split; [|done].
    intros _. exists realPath. rewrite Hc. auto. }
  destruct (getDemo_miss_loads _ _ _ Hrp Hc)
    as [(Hl & w2 & -> & _) | (Hl & e & w2 & -> & _)]; simpl.
  - split; [|done]. intros _. exists realPath. auto.
  - split; [by intros [? [=]]|]. intros (rp & [= <-] & [Hs|Hs]).
    + rewrite Hc in Hs. by destruct Hs.
    + congruence.
Qed.

(** Whether [getDemo] returns is the same before and after the world
    has grown. *)
Lemma getDemo_returns_grown (filename : string) (w w' : world) :
  grown JSON_parse w w' →
  is_Some (returned (fst (getDemo JSON_parse filename w'))) ↔
  is_Some (returned (fst (getDemo JSON_parse filename w))).
Proof.
  intros (Hf & Hk & Hl). rewrite !getDemo_returns_iff. rewrite Hf.
  split; intros (rp & Hrp & Hs); exists rp; (split; [done|]).
  - destruct Hs as [Hs|Hs]; [|by right].
    destruct (demoCache w !! rp) as [d|] eqn:Hc; [left; by eexists|].
    right. by apply Hl.
  - destruct Hs as [[d Hs]|Hs]; [|by right]. left. rewrite (Hk _ _ Hs). by eexists.
Qed.

(** The loop of the scan: [demoList] grows by what [listed] gives for
    each entry, whatever happens to the others, and nothing is thrown. *)
Lemma scan_files_listed (dirPath : string) (files : list string) :
  ∀ (demoList : list nat) (w : world),
  ∃ w', scan_files JSON_parse path_join dirPath demoList files w =
          (Ok (demoList ++ omap (listed JSON_parse path_join dirPath w') files), w') ∧
        grown JSON_parse w w'.
Proof.
  induction files as [|file rest IH]; intros demoList w.
  { exists w. simpl. rewrite app_nil_r. split; [done | apply grown_refl]. }
  cbn [scan_files]. unfold mbind at 1, ST_bind at 1, scan_file, listed.
  simpl omap. destruct (endsWith file ".dem") eqn:Hext.
  - unfold catch. seq.
    destruct (getDemo JSON_parse (path_join dirPath file)
                (add_log (Debug, FoundDemoFile file) w)) as [r w1] eqn:Hg.
    apply getDemo_step in Hg as [Hgrow Hlater].
    destruct r as [d|e]; simpl.
    + destruct (IH (demoList ++ [d]) w1) as (w' & -> & Hgrow').
      exists w'. rewrite (Hlater w' Hgrow'). simpl.
      rewrite <- app_assoc. split; [done|].
      eapply grown_trans; [apply grown_add_log|].
      eapply grown_trans; eassumption.
    + destruct (IH demoList w1) as (w' & -> & Hgrow').
      exists w'. rewrite (Hlater w' Hgrow'). simpl. split; [done|].
      eapply grown_trans; [apply grown_add_log|].
      eapply grown_trans; eassumption.
  - seq. destruct (IH demoList (add_log (Debug, FoundNonDemoFile file) w))
      as (w' & -> & Hgrow').
    exists w'. split; [done|].
    eapply grown_trans; [apply grown_add_log | eassumption].
Qed.

(** A directory that cannot be listed gives an empty result and an
    error in the log. *)
Lemma getDemosInDirectory_unreadable (dirPath : string) (w : world) (e : error) :
  readdir (fs w) dirPath = Throw e →
  getDemosInDirectory JSON_parse path_join dirPath w =
  (Ok [], add_log (Error, ErrorReadingPath dirPath e)
            (add_log (Debug, FindingDemoFiles dirPath) w)).
Proof.
  intros Hdir. unfold getDemosInDirectory. seq. by rewrite Hdir.
Qed.

(** C5, amended: the scan attempts [getDemo] for the entries whose name
    ends in ".dem", lower case as written, and for no other entry.  It
    never throws; its result is, in directory order, what [getDemo]
    returns for those entries, an entry for which [getDemo] throws being
    left out while the scan goes on; and whether [getDemo] returns is
    the same before and after the scan. *)
Theorem getDemosInDirectory_scan (dirPath : string) (files : list string)
    (w : world) :
  readdir (fs w) dirPath = Ok files →
  ∃ w', getDemosInDirectory JSON_parse path_join dirPath w =
          (Ok (omap (listed JSON_parse path_join dirPath w') files), w') ∧
        fs w' = fs w ∧
        ∀ file, is_Some (listed JSON_parse path_join dirPath w' file) ↔
                endsWith file ".dem" = true ∧
                is_Some (returned
                  (fst (getDemo JSON_parse (path_join dirPath file) w))).
Proof.
  intros Hdir. unfold getDemosInDirectory. seq. rewrite Hdir. simpl.
  destruct (scan_files_listed dirPath files []
              (add_log (Debug, FindingDemoFiles dirPath) w))
    as (w' & -> & Hgrow).
  exists w'. split; [done|].
  assert (grown JSON_parse w w') as Hgrow'.
  { eapply grown_trans; [apply grown_add_log | eassumption]. }
  split; [apply Hgrow'|]. intros file. unfold listed.
  destruct (endsWith file ".dem").
  - rewrite (getDemo_returns_grown _ w w' Hgrow').
    split; [by intros ? | by intros [_ ?]].
  - split; [by intros [? [=]] | by intros [[=] _]].
Qed.

End Scan.

(** C5 on [boot]: of the four entries of /demos only a.dem is listed. *)
Lemma getDemosInDirectory_scan_witness :
  ∃ w', getDemosInDirectory no_json Path.join "/demos" boot =
          (Ok (omap (listed no_json Path.join "/demos" w')
                 ["short.dem"; "MATCH.DEM"; "a.json"; "a.dem"]), w') ∧
        fs w' = fs boot.
Proof.
  destruct (getDemosInDirectory_scan no_json Path.join "/demos"
              ["short.dem"; "MATCH.DEM"; "a.json"; "a.dem"] boot)
    as (w' & H1 & H2 & _).
  - vm_compute. reflexivity.
  - exists w'. split; assumption.
Defined.

(** C5 as stated, refuted: MATCH.DEM is a directory entry that
    [getDemo] accepts, and the scan passes it over as a non-demo file. *)
Lemma getDemosInDirectory_skips_upper_case :
  readdir (fs boot) "/demos" = Ok ["short.dem"; "MATCH.DEM"; "a.json"; "a.dem"] ∧
  ∃ w', getDemosInDirectory no_json Path.join "/demos" boot = (Ok [0%nat], w') ∧
        filename <$> heap w' = ["/demos/a.dem"] ∧
        log w' =
          [(Debug, FindingDemoFiles "/demos");
           (Debug, FoundDemoFile "short.dem");
           (Debug, LookingForEventsFile "/demos/short.json");
           (Debug, ReadingFileHeader "/demos/short.dem");
           (Warn, ShortRead "/demos/short.dem" 792 1072);
           (Debug, FoundNonDemoFile "MATCH.DEM");
           (Debug, FoundNonDemoFile "a.json");
           (Debug, FoundDemoFile "a.dem");
           (Debug, LookingForEventsFile "/demos/a.json");
           (Debug, ReadingFileHeader "/demos/a.dem")] ∧
        fst (getDemo no_json (Path.join "/demos" "MATCH.DEM") w') = Ok 1%nat.
Proof.
  split; [vm_compute; reflexivity|]. eexists. split; [vm_compute; reflexivity|].
  split; [|split]; vm_compute; reflexivity.
Qed.

(* ===================================================================== *)
(** ** Properties of [rename] *)
(* ===================================================================== *)

Section Rename.

Variable path_dirname : string → string.
Variable path_join : string → string → string.
Variable path_basename : string → string → string.

(** C6, amended: [rename] does not look at the characters or the length
    of the new name.  For any name, when the file system lets the demo
    move to [dir/newName.dem] and the sidecar either moves or is
    missing, [rename] returns, the object has the new path and the
    files are where [renameSync] put them.  The name check is the one of
    the dialog, which keeps its previous name when the new one is not 1
    to 50 characters of the allowed set. *)
Theorem rename_moves_any_name (this : nat) (d : Demo) (newName : string)
    (w : world) (t1 : gmap string node) :
  let dir := path_dirname (filename d) in
  let newNameFull := path_join dir (newName +:+ ".dem") in
  let t2 := match renameSync t1 (getJSONPath (filename d))
                    (path_join dir (newName +:+ ".json")) with
            | Ok t => t
            | Throw _ => t1
            end in
  heap w !! this = Some d →
  renameSync (fs w) (filename d) newNameFull = Ok t1 →
  (∀ e, renameSync t1 (getJSONPath (filename d))
          (path_join dir (newName +:+ ".json")) = Throw e →
        e = SystemError "ENOENT") →
  (∃ w', rename path_dirname path_join path_basename this newName w = (Ok tt, w') ∧
         fs w' = t2 ∧
         filename <$> heap w' !! this = Some newNameFull ∧
         demoCache w' = demoCache w) ∧
  (∀ st v, RenameDialog.legal_name v = false →
     RenameDialog.newName (RenameDialog.validateNewName v st)
       = RenameDialog.newName st ∧
     RenameDialog.newNameValid (RenameDialog.validateNewName v st) = false).
Proof.
  intros dir newNameFull t2 Hthis Hmove Hside. split.
  - unfold rename, set_filename, deref. run. rewrite Hthis. simpl.
    fold dir. fold newNameFull. rewrite Hmove. simpl.
    subst t2. fold dir in Hside |- *.
    destruct (renameSync t1 _ _) as [t|e]; simpl.
    + rewrite Hthis. simpl. eexists. split; [reflexivity|]. simpl.
      split; [done|]. split; [|done].
      rewrite list_lookup_insert_eq; [done|]. by eapply lookup_lt_Some.
    + rewrite (Hside e eq_refl). simpl. rewrite Hthis. simpl.
      eexists. split; [reflexivity|]. simpl.
      split; [done|]. split; [|done].
      rewrite list_lookup_insert_eq; [done|]. by eapply lookup_lt_Some.
  - intros st v Hv. unfold RenameDialog.validateNewName. by rewrite Hv.
Qed.

End Rename.

(** C6 on [loaded]: a name with a star moves the demo and its sidecar. *)
Lemma rename_moves_any_name_witness :
  ∃ w', rename Path.dirname Path.join basename_stub 0 "a*b" loaded = (Ok tt, w') ∧
        filename <$> heap w' !! 0%nat = Some "/demos/a*b.dem".
Proof.
  destruct (rename_moves_any_name Path.dirname Path.join basename_stub
              0 loaded_demo "a*b" loaded
              (<["/demos/a*b.dem" := File valid_demo 1000]>
                 (delete "/demos/a.dem" disk)))
    as [(w' & H1 & _ & H3 & _) _].
  - vm_compute. reflexivity.
  - vm_compute. reflexivity.
  - intros e. vm_compute. discriminate.
  - exists w'. split; assumption.
Defined.

(** C6 as stated, refuted: the dialog rejects "../escaped", yet
    [rename] called with it returns and has moved the demo and its
    sidecar out of their directory. *)
Lemma rename_accepts_illegal_name :
  RenameDialog.legal_name "../escaped" = false ∧
  fs loaded !! "/demos/a.dem" = Some (File valid_demo 1000) ∧
  ∃ w', rename Path.dirname Path.join basename_stub 0 "../escaped" loaded
          = (Ok tt, w') ∧
        fs w' !! "/demos/a.dem" = None ∧
        fs w' !! "/demos/a.json" = None ∧
        fs w' !! "/escaped.dem" = Some (File valid_demo 1000) ∧
        fs w' !! "/escaped.json" = Some (File sidecar 2000) ∧
        filename <$> heap w' = ["/escaped.dem"].
Proof.
  split; [reflexivity|]. split; [vm_compute; reflexivity|].
  eexists. split; [vm_compute; reflexivity|].
  repeat split; vm_compute; reflexivity.
Qed.

(* ===================================================================== *)
(** ** Properties of the highlight filter *)
(* ===================================================================== *)

Import Highlights.

Lemma filter_sublist {A} (f : A → bool) (l : list A) :
  List.filter f l `sublist_of` l.
Proof.
  induction l as [|x l IH]; simpl; [constructor|].
  destruct (f x); by constructor.
Qed.

Lemma toggle_sublist (visible : bool) (hidden : Highlight → bool)
    (l : list Entry) :
  toggle visible hidden l `sublist_of` l.
Proof.
  unfold toggle. destruct visible; simpl; [done | apply filter_sublist].
Qed.

Create HintDb highlights.
#[local] Hint Resolve filter_sublist toggle_sublist : highlights.

(** A highlight of a round passes the player filter as soon as the
    first selected id is not the empty string. *)
Lemma involves_selected_round (p : string) (ids : list string) (h : Entry) :
  is_round (event h) = true → p ≠ "" →
  involves_selected (p :: ids) h = true.
Proof.
  intros Hr Hp. unfold involves_selected. simpl.
  destruct (event h); try discriminate; simpl;
    by rewrite bool_decide_eq_false_2.
Qed.

Lemma elem_of_List_filter {A} (f : A → bool) (l : list A) (x : A) :
  x ∈ List.filter f l ↔ x ∈ l ∧ f x = true.
Proof. rewrite !list_elem_of_In, filter_In. done. Qed.

Lemma elem_of_toggle (visible : bool) (hidden : Highlight → bool)
    (l : list Entry) (h : Entry) :
  h ∈ toggle visible hidden l ↔
  h ∈ l ∧ (visible = true ∨ hidden (event h) = false).
Proof.
  unfold toggle. destruct visible; simpl.
  - split; [auto | by intros [? _]].
  - rewrite elem_of_List_filter, negb_true_iff.
    split; [intros [? ?]; auto | intros [? [?|?]]; done].
Qed.

Section Filter.

Variable RegExp : Type.
Variable RegExp_i : string → result RegExp.
Variable test : RegExp → string → bool.

(** C3: a highlight of a round (start, win, stalemate) passes the
    player filter whoever is selected.  [doesHighlightIncludePlayer]
    answers true for it for every player id; with a selection whose
    first id is not the empty string it passes the first [filter], and
    it is in the list handed over exactly when it is in the input and
    the rounds toggle is on. *)
Theorem recomputeHighlights_rounds_pass (all out : list Entry)
    (filters : Filters) (h : Entry) :
  is_round (event h) = true →
  head (playerIds filters) ≠ Some "" →
  recomputeHighlights RegExp RegExp_i test all filters = Ok out →
  (∀ playerId, doesHighlightIncludePlayer (event h) playerId = true) ∧
  (playerIds filters ≠ [] → involves_selected (playerIds filters) h = true) ∧
  (h ∈ out ↔ h ∈ all ∧ visibleRounds filters = true).
Proof.
  intros Hr Hhead Hout.
  assert (playerIds filters ≠ [] →
          involves_selected (playerIds filters) h = true) as Hsel.
  { destruct (playerIds filters) as [|p ids]; [done|]. intros _.
    apply involves_selected_round; [done|]. intros ->. by apply Hhead. }
  split; [|split; [exact Hsel|]].
  { intros playerId. by destruct (event h). }
  unfold recomputeHighlights in Hout. cbv zeta in Hout.
  set (byPlayer := if (0 <? length (playerIds filters))%nat then _ else _) in Hout.
  assert (h ∈ byPlayer ↔ h ∈ all) as Hp.
  { subst byPlayer. destruct (playerIds filters) as [|p ids] eqn:Hids; [done|].
    simpl. rewrite elem_of_List_filter, Hsel by done. tauto. }
  clearbody byPlayer.
  assert (∃ bySearch, out =
            toggle (visibleAirshots filters) is_airshot
              (toggle (visibleRounds filters) is_round
                 (toggle (visibleKillstreaks filters) is_killstreak
                    (toggle (visibleConnectionMessages filters) is_connection
                       (toggle (visibleChat filters) is_ChatMessage
                          (toggle (visibleCaptures filters) is_PointCaptured
                             (toggle (visibleKillfeed filters) is_Kill
                                bySearch)))))) ∧
            (h ∈ bySearch ↔ h ∈ all)) as (bySearch & -> & Hs).
  { case_bool_decide as Hc.
    - destruct (RegExp_i (chatSearch filters)) as [regex|e]; [|done].
      injection Hout as <-. eexists. split; [reflexivity|].
      rewrite elem_of_List_filter, Hp. unfold chat_matches.
      destruct (event h); try discriminate; tauto.
    - injection Hout as <-. eexists. split; [reflexivity | exact Hp]. }
  rewrite !elem_of_toggle, Hs.
  destruct (event h); try discriminate; simpl;
    destruct (visibleRounds filters); intuition congruence.
Qed.

(** C10: with the initial filters the list is handed over as it is;
    with any filters, what is handed over is a subsequence of the list,
    in the order of the list; and nothing is handed over only when the
    search text is not empty and [new RegExp] throws on it. *)
Theorem recomputeHighlights_subsequence (all : list Entry) (filters : Filters) :
  recomputeHighlights RegExp RegExp_i test all initial_filters = Ok all ∧
  match recomputeHighlights RegExp RegExp_i test all filters with
  | Ok out => out `sublist_of` all
  | Throw e =>
      chatSearch filters ≠ "" ∧ RegExp_i (chatSearch filters) = Throw e
  end.
Proof.
  split; [reflexivity|]. unfold recomputeHighlights.
  set (byPlayer := if (0 <? length (playerIds filters))%nat then _ else _).
  assert (byPlayer `sublist_of` all) as Hp.
  { subst byPlayer. destruct (0 <? _)%nat; auto with highlights. }
  clearbody byPlayer.
  case_bool_decide as Hs.
  - destruct (RegExp_i (chatSearch filters)) as [regex|e]; [|done].
    repeat (etrans; [apply toggle_sublist|]).
    etrans; [apply filter_sublist | done].
  - repeat (etrans; [apply toggle_sublist|]). done.
Qed.

End Filter.

(** C3 on the sample match with player 7 selected: the round that was
    won is handed over. *)
Lemma recomputeHighlights_rounds_pass_witness :
  let f := {| playerIds := ["7"]; chatSearch := "";
              visibleKillfeed := true; visibleCaptures := true;
              visibleChat := true; visibleConnectionMessages := true;
              visibleKillstreaks := true; visibleRounds := true;
              visibleAirshots := true |} in
  let h := {| event := RoundWin; tick := 30 |} in
  (∀ playerId, doesHighlightIncludePlayer (event h) playerId = true) ∧
  (playerIds f ≠ [] → involves_selected (playerIds f) h = true) ∧
  (h ∈ [ {| event := RoundStart; tick := 0 |};
         {| event := Kill (Some (player 7)) None (Some (player 8)); tick := 10 |};
         {| event := RoundWin; tick := 30 |};
         {| event := RoundStalemate; tick := 40 |} ]
   ↔ h ∈ match_timeline ∧ visibleRounds f = true).
Proof.
  intros f h.
  apply (recomputeHighlights_rounds_pass unit (λ _, Throw SyntaxError)
           (λ _ _, false) match_timeline _ f h).
  - reflexivity.
  - discriminate.
  - reflexivity.
Defined.

(** C3 as stated, refuted: player 7 is selected.  The kill by player 9
    is dropped, the kill by player 7 is kept, and so are the three
    highlights of a round, which name no player. *)
Lemma recomputeHighlights_keeps_rounds :
  recomputeHighlights unit (λ _, Throw SyntaxError) (λ _ _, false)
    match_timeline
    {| playerIds := ["7"]; chatSearch := "";
       visibleKillfeed := true; visibleCaptures := true; visibleChat := true;
       visibleConnectionMessages := true; visibleKillstreaks := true;
       visibleRounds := true; visibleAirshots := true |}
  = Ok [ {| event := RoundStart; tick := 0 |};
         {| event := Kill (Some (player 7)) None (Some (player 8)); tick := 10 |};
         {| event := RoundWin; tick := 30 |};
         {| event := RoundStalemate; tick := 40 |} ].
Proof. reflexivity. Qed.

(* ===================================================================== *)
(** ** More properties of the demo store *)
(* ===================================================================== *)

Import DemoMethods.

Section Store.

Variable JSON_parse : string → result json.
Variable path_join : string → string → string.

(** What one call of [getDemo] does to the world: nothing but log
    lines, or one new object at the end of the heap, cached under the
    canonical path, which is then what the call returns. *)
Lemma getDemo_outcome (filename : string) (w w' : world) (r : result nat) :
  getDemo JSON_parse filename w = (r, w') →
  fs w' = fs w ∧
  ((heap w' = heap w ∧ demoCache w' = demoCache w ∧
    ∀ d, r = Ok d → ∃ realPath,
      realpathSync (fs w) filename = Ok realPath ∧
      demoCache w !! realPath = Some d) ∨
   (∃ realPath demo,
      realpathSync (fs w) filename = Ok realPath ∧
      demoCache w !! realPath = None ∧
      loads JSON_parse (fs w) realPath = true ∧
      r = Ok (length (heap w)) ∧
      heap w' = heap w ++ [demo] ∧
      Demos.filename demo = realPath ∧
      demoCache w' = <[realPath := length (heap w)]> (demoCache w))).
Proof.
  intros Hg.
  destruct (realpathSync (fs w) filename) as [realPath|e0] eqn:Hrp.
  2: { rewrite (getDemo_no_path _ _ _ _ Hrp) in Hg. injection Hg as <- <-.
       split; [done|]. left. by repeat split. }
  destruct (demoCache w !! realPath) as [d|] eqn:Hc.
  { rewrite (getDemo_hit _ _ _ _ _ Hrp Hc) in Hg. injection Hg as <- <-.
    split; [done|]. left. repeat split; try done.
    intros d' [= <-]. eauto. }
  pose proof (getDemo_miss_loads JSON_parse _ _ _ Hrp Hc) as Hl.
  rewrite (getDemo_miss _ _ _ _ Hrp Hc) in Hg, Hl.
  destruct (statSync (fs w) realPath) as [stats|e0].
  2: { injection Hg as <- <-. split; [done|]. left. by repeat split. }
  cbv zeta in Hg, Hl.
  destruct (fst (readEventsAndTags _ _ w)) as [ann|e0].
  2: { injection Hg as <- <-. split; [done|]. left. by repeat split. }
  destruct (readFileHeader_world realPath
              (add_log (Debug, LookingForEventsFile (getJSONPath realPath)) w))
    as (l & Hw2 & _).
  destruct (readFileHeader realPath _) as [[h|e0] w2]; simpl in Hw2; subst w2.
  - injection Hg as <- <-. simpl. split; [done|]. right.
    eexists realPath, _. repeat split; try done.
    destruct Hl as [[? _]|(_ & ? & ? & [=] & _)]. done.
  - injection Hg as <- <-. simpl. split; [done|]. left. by repeat split.
Qed.

(** [getDemo] keeps [cache_named], and names what it returns. *)
Lemma getDemo_named (filename : string) (w w' : world) (r : result nat) :
  cache_named w →
  getDemo JSON_parse filename w = (r, w') →
  cache_named w' ∧
  ∀ d, r = Ok d →
    ∃ realPath, realpathSync (fs w) filename = Ok realPath ∧
                Demos.filename <$> heap w' !! d = Some realPath.
Proof.
  intros Hn Hg. apply getDemo_outcome in Hg
    as (_ & [(Hh & Hc & Hr) | (rp & demo & Hrp & Hmiss & _ & -> & Hh & Hf & Hc)]).
  - split.
    + intros k d. rewrite Hc, Hh. apply Hn.
    + intros d Hd. destruct (Hr d Hd) as (rp & Hrp & Hk).
      exists rp. split; [done|]. rewrite Hh. by apply Hn.
  - assert (∀ k d, demoCache w !! k = Some d →
              Demos.filename <$> (heap w ++ [demo]) !! d = Some k) as Hold.
    { intros k d Hk. specialize (Hn k d Hk).
      destruct (heap w !! d) as [x|] eqn:Hd; [|done].
      by rewrite (lookup_app_l_Some _ _ _ _ Hd). }
    assert (Demos.filename <$> (heap w ++ [demo]) !! length (heap w) = Some rp)
      as Hnew.
    { rewrite lookup_app_r by lia. rewrite Nat.sub_diag. simpl. by rewrite Hf. }
    split.
    + intros k d. rewrite Hc, Hh, lookup_insert.
      case_decide as Hk; [intros [= <-]; by subst k | apply Hold].
    + intros d [= <-]. exists rp. by rewrite Hh.
Qed.


(** When [getDemo] throws on a path that has a canonical form, that
    form is not cached and does not load. *)
Lemma getDemo_throws (filename realPath : string) (w w' : world) (e : error) :
  getDemo JSON_parse filename w = (Throw e, w') →
  realpathSync (fs w) filename = Ok realPath →
  demoCache w !! realPath = None ∧ loads JSON_parse (fs w) realPath = false.
Proof.
  intros Hg Hrp. destruct (demoCache w !! realPath) as [d|] eqn:Hc.
  { by rewrite (getDemo_hit _ _ _ _ _ Hrp Hc) in Hg. }
  split; [done|].
  destruct (getDemo_miss_loads JSON_parse _ _ _ Hrp Hc)
    as [(_ & w2 & Hg2 & _) | (Hl & _)]; [congruence | done].
Qed.

Lemma cached_entry_same (dirPath file : string) (w w' : world) :
  fs w' = fs w → demoCache w' = demoCache w →
  cached_entry path_join dirPath w' file = cached_entry path_join dirPath w file.
Proof. intros Hf Hc. unfold cached_entry. by rewrite Hf, Hc. Qed.

Lemma omap_cached_entry_same (dirPath : string) (files : list string)
    (w w' : world) :
  fs w' = fs w → demoCache w' = demoCache w →
  omap (cached_entry path_join dirPath w') files =
  omap (cached_entry path_join dirPath w) files.
Proof.
  intros Hf Hc. induction files as [|file rest IH]; [done|]. simpl.
  rewrite (cached_entry_same _ _ _ _ Hf Hc).
  destruct (cached_entry _ _ w file); [f_equal|]; apply IH.
Qed.

(** The loop of the scan, in terms of the cache it leaves behind. *)
Lemma scan_files_cached (dirPath : string) (files : list string) :
  ∀ (demoList : list nat) (w w' : world) (r : result (list nat)),
  scan_files JSON_parse path_join dirPath demoList files w = (r, w') →
  grown JSON_parse w w' ∧
  r = Ok (demoList ++ omap (cached_entry path_join dirPath w') files) ∧
  (cache_named w → cache_named w') ∧
  saturated JSON_parse path_join dirPath files w'.
Proof.
  induction files as [|file rest IH]; intros demoList w w' r.
  { simpl. intros [= <- <-]. rewrite app_nil_r.
    split; [apply grown_refl|]. split; [done|]. split; [done|].
    intros ? ? Hin. by apply elem_of_nil in Hin. }
  cbn [scan_files]. unfold mbind at 1, ST_bind at 1, scan_file.
  simpl omap. destruct (endsWith file ".dem") eqn:Hext.
  - unfold catch. seq.
    destruct (getDemo JSON_parse (path_join dirPath file)
                (add_log (Debug, FoundDemoFile file) w)) as [r1 w1] eqn:Hg.
    pose proof (getDemo_step _ _ _ _ _ Hg) as [Hgrow _].
    pose proof (λ Hn, proj1 (getDemo_named _ _ _ _ Hn Hg)) as Hnamed.
    destruct r1 as [d|e]; simpl.
    + intros Hscan. apply IH in Hscan as (Hgrow' & -> & Hn' & Hsat).
      assert (grown JSON_parse w w') as Hww'.
      { eapply grown_trans; [apply grown_add_log|].
        eapply grown_trans; eassumption. }
      split; [done|].
      apply getDemo_outcome in Hg as (Hf1 & Hcase).
      assert (∃ rp, realpathSync (fs w) (path_join dirPath file) = Ok rp ∧
                    demoCache w1 !! rp = Some d) as (rp & Hrp & Hc1).
      { destruct Hcase as [(_ & Hc & Hr) | (rp & demo & Hrp & _ & _ & Hr & _ & _ & Hc)].
        - destruct (Hr d eq_refl) as (rp & ? & ?). exists rp. by rewrite Hc.
        - injection Hr as ->. exists rp. split; [done|].
          rewrite Hc. apply lookup_insert_eq. }
      destruct Hgrow' as (Hf' & Hk' & Hl').
      assert (fs w' = fs w) as Hfw by (by destruct Hww').
      assert (cached_entry path_join dirPath w' file = Some d) as ->.
      { unfold cached_entry. by rewrite Hext, Hfw, Hrp, (Hk' _ _ Hc1). }
      rewrite <- app_assoc. split; [done|].
      split.
      * intros Hn. apply Hn'. apply Hnamed. intros k d'. apply Hn.
      * intros f rp' Hin. apply elem_of_cons in Hin as [->|Hin]; [|by apply Hsat].
        rewrite Hfw, Hrp. intros _ [= <-] _. rewrite (Hk' _ _ Hc1). by eexists.
    + intros Hscan. apply IH in Hscan as (Hgrow' & -> & Hn' & Hsat).
      assert (grown JSON_parse w w') as Hww'.
      { eapply grown_trans; [apply grown_add_log|].
        eapply grown_trans; eassumption. }
      split; [done|].
      assert (fs w' = fs w) as Hfw by (by destruct Hww').
      assert (∀ rp, realpathSync (fs w) (path_join dirPath file) = Ok rp →
                    demoCache w' !! rp = None ∧
                    loads JSON_parse (fs w) rp = false) as Hnone.
      { intros rp Hrp.
        destruct (getDemo_throws _ _ _ _ _ Hg Hrp) as [Hc Hl]. simpl in Hl.
        split; [|done].
        destruct (demoCache w' !! rp) as [d|] eqn:Hd; [|done].
        destruct Hww' as (_ & _ & Hl'). simpl in Hc.
        rewrite Hl' in Hl; [done|done|]. by rewrite Hd. }
      assert (cached_entry path_join dirPath w' file = None) as ->.
      { unfold cached_entry. rewrite Hext, Hfw.
        destruct (realpathSync (fs w) (path_join dirPath file)) as [rp|] eqn:Hrp;
          [|done]. by rewrite (proj1 (Hnone rp eq_refl)). }
      split; [done|]. split.
      * intros Hn. apply Hn'. apply Hnamed. intros k d'. apply Hn.
      * intros f rp' Hin. apply elem_of_cons in Hin as [->|Hin]; [|by apply Hsat].
        rewrite Hfw. intros _ Hrp Hl.
        destruct (Hnone rp' Hrp) as [_ Hl']. congruence.
  - seq. intros Hscan. apply IH in Hscan as (Hgrow' & -> & Hn' & Hsat).
    split; [eapply grown_trans; [apply grown_add_log | eassumption]|].
    assert (cached_entry path_join dirPath w' file = None) as ->.
    { unfold cached_entry. by rewrite Hext. }
    split; [done|]. split.
    + intros Hn. apply Hn'. intros k d'. apply Hn.
    + intros f rp' Hin. apply elem_of_cons in Hin as [->|Hin]; [|by apply Hsat].
      congruence.
Qed.

(** The loop of the scan once the entries are saturated: every call of
    [getDemo] is a hit or a failure, and the heap and the cache stay. *)
Lemma scan_files_saturated (dirPath : string) (files : list string) :
  ∀ (demoList : list nat) (w : world),
  saturated JSON_parse path_join dirPath files w →
  ∃ w', scan_files JSON_parse path_join dirPath demoList files w =
          (Ok (demoList ++ omap (cached_entry path_join dirPath w) files), w') ∧
        fs w' = fs w ∧ heap w' = heap w ∧ demoCache w' = demoCache w.
Proof.
  induction files as [|file rest IH]; intros demoList w Hsat.
  { exists w. simpl. by rewrite app_nil_r. }
  assert (∀ w1, fs w1 = fs w → demoCache w1 = demoCache w →
                saturated JSON_parse path_join dirPath rest w1) as Hrest.
  { intros w1 Hf Hc f rp Hin. rewrite Hf, Hc. apply Hsat. by right. }
  cbn [scan_files]. unfold mbind at 1, ST_bind at 1, scan_file.
  simpl omap. unfold cached_entry at 1. destruct (endsWith file ".dem") eqn:Hext.
  - unfold catch. seq.
    destruct (getDemo JSON_parse (path_join dirPath file)
                (add_log (Debug, FoundDemoFile file) w)) as [r1 w1] eqn:Hg.
    pose proof (getDemo_outcome _ _ _ _ Hg) as (Hf1 & Hcase). simpl in Hf1.
    destruct Hcase as [(Hh & Hc & Hr) | (rp & demo & Hrp & Hmiss & Hl & _)].
    2: { simpl in *. destruct (Hsat file rp) as [d Hd]; try done; [by left|].
         congruence. }
    simpl in Hh, Hc, Hr. destruct r1 as [d|e]; simpl.
    + destruct (Hr d eq_refl) as (rp & Hrp & Hd). rewrite Hrp, Hd.
      destruct (IH (demoList ++ [d]) w1 (Hrest w1 Hf1 Hc)) as (w' & -> & ? & ? & ?).
      exists w'. rewrite <- app_assoc. simpl.
      rewrite (omap_cached_entry_same dirPath rest w w1 Hf1 Hc).
      split; [done|]. split; [congruence|]. split; congruence.
    + destruct (IH demoList w1 (Hrest w1 Hf1 Hc)) as (w' & -> & ? & ? & ?).
      exists w'.
      assert (match realpathSync (fs w) (path_join dirPath file) with
              | Ok rp => demoCache w !! rp
              | Throw _ => None
              end = None) as ->.
      { destruct (realpathSync (fs w) (path_join dirPath file)) as [rp|] eqn:Hrp;
          [|done]. by destruct (getDemo_throws _ _ _ _ _ Hg Hrp). }
      rewrite (omap_cached_entry_same dirPath rest w w1 Hf1 Hc).
      split; [done|]. split; [congruence|]. split; congruence.
  - seq. destruct (IH demoList (add_log (Debug, FoundNonDemoFile file) w)
                     (Hrest _ eq_refl eq_refl)) as (w' & -> & ? & ? & ?).
    exists w'. split; [|done].
    by rewrite (omap_cached_entry_same dirPath rest w
                  (add_log (Debug, FoundNonDemoFile file) w) eq_refl eq_refl).
Qed.

(** X1: [getDemo] keeps the cache consistent with the objects: if every
    cached object carries its key as [filename] before the call, this
    still holds after it, and a returned reference leads to an object
    whose [filename] is the canonical path of the argument. *)
Theorem getDemo_cache_named (filename : string) (w w' : world) (r : result nat) :
  cache_named w →
  getDemo JSON_parse filename w = (r, w') →
  cache_named w' ∧
  ∀ d, r = Ok d →
    ∃ realPath, realpathSync (fs w) filename = Ok realPath ∧
                Demos.filename <$> heap w' !! d = Some realPath.
Proof. apply getDemo_named. Qed.

Lemma omap_length_filter {A B} (f : A → option B) (g : A → bool) (l : list A) :
  (∀ x y, f x = Some y → g x = true) →
  (length (omap f l) ≤ length (List.filter g l))%nat.
Proof.
  intros Hfg. induction l as [|x l IH]; simpl; [done|].
  change (list_omap A B f l) with (omap f l).
  destruct (f x) as [y|] eqn:Hx.
  - rewrite (Hfg x y Hx). simpl. lia.
  - destruct (g x); simpl; lia.
Qed.

(** X2: after a scan that started from a consistent cache, the cache is
    still consistent, and every reference in the result is the cached
    object of a directory entry that ends in ".dem", carrying the
    canonical path of that entry as its [filename]; the result is no
    longer than the number of such entries. *)
Theorem getDemosInDirectory_named (dirPath : string) (files : list string)
    (w w' : world) (demoList : list nat) :
  cache_named w →
  readdir (fs w) dirPath = Ok files →
  getDemosInDirectory JSON_parse path_join dirPath w = (Ok demoList, w') →
  cache_named w' ∧
  Forall (λ d, ∃ file realPath,
            file ∈ files ∧ endsWith file ".dem" = true ∧
            realpathSync (fs w) (path_join dirPath file) = Ok realPath ∧
            demoCache w' !! realPath = Some d ∧
            Demos.filename <$> heap w' !! d = Some realPath) demoList ∧
  (length demoList ≤ length (List.filter (λ f, endsWith f ".dem") files))%nat.
Proof.
  intros Hn Hdir. unfold getDemosInDirectory. seq. rewrite Hdir. simpl.
  intros Hscan. apply scan_files_cached in Hscan as (Hgrow & [= ->] & Hn' & _).
  assert (cache_named w') as Hnw' by (apply Hn'; intros k d; apply Hn).
  destruct Hgrow as (Hf & _). simpl in Hf.
  split; [done|]. split.
  - apply Forall_forall. intros d Hd.
    apply list_elem_of_omap in Hd as (file & Hin & Hc).
    unfold cached_entry in Hc. rewrite Hf in Hc.
    destruct (endsWith file ".dem") eqn:Hext; [|done].
    destruct (realpathSync (fs w) (path_join dirPath file)) as [rp|] eqn:Hrp;
      [|done].
    exists file, rp. repeat split; try done. by apply Hnw'.
  - apply omap_length_filter. intros file d. unfold cached_entry.
    by destruct (endsWith file ".dem").
Qed.

(** X3: scanning the same directory again returns the same references
    and builds nothing: the heap, the cache and the files are as the
    first scan left them. *)
Theorem getDemosInDirectory_twice (dirPath : string) (w w1 : world)
    (r : result (list nat)) :
  getDemosInDirectory JSON_parse path_join dirPath w = (r, w1) →
  ∃ w2, getDemosInDirectory JSON_parse path_join dirPath w1 = (r, w2) ∧
        fs w2 = fs w1 ∧ heap w2 = heap w1 ∧ demoCache w2 = demoCache w1.
Proof.
  unfold getDemosInDirectory. seq.
  destruct (readdir (fs w) dirPath) as [files|e] eqn:Hdir; simpl.
  - intros Hscan.
    apply scan_files_cached in Hscan as ((Hf & _) & -> & _ & Hsat).
    simpl in Hf. rewrite Hf, Hdir. simpl.
    destruct (scan_files_saturated dirPath files []
                (add_log (Debug, FindingDemoFiles dirPath) w1))
      as (w2 & -> & Hf2 & Hh2 & Hc2); [exact Hsat|].
    simpl in Hf2, Hh2, Hc2. exists w2.
    split; [|split; [congruence|done]]. simpl.
    by rewrite (omap_cached_entry_same dirPath files w1
                  (add_log (Debug, FindingDemoFiles dirPath) w1) eq_refl eq_refl).
  - intros [= <- <-]. simpl. rewrite Hdir. simpl. by eexists.
Qed.

End Store.

(** X1 on [boot]: the demo reached through its link is object 0 and
    carries the canonical path. *)
Lemma getDemo_cache_named_witness :
  cache_named (snd (getDemo no_json "/link.dem" boot)) ∧
  Demos.filename <$> heap (snd (getDemo no_json "/link.dem" boot)) !! 0%nat
    = Some "/demos/a.dem".
Proof.
  destruct (getDemo_cache_named no_json "/link.dem" boot
              (snd (getDemo no_json "/link.dem" boot)) (Ok 0%nat))
    as [H1 H2].
  - intros k d. vm_compute. discriminate.
  - vm_compute. reflexivity.
  - split; [exact H1|].
    destruct (H2 0%nat eq_refl) as (rp & Hrp & Hf).
    vm_compute in Hrp. injection Hrp as <-. exact Hf.
Defined.

(** X2 on [boot]: the scan of /demos returns object 0, the demo a.dem. *)
Lemma getDemosInDirectory_named_witness :
  cache_named (snd (getDemosInDirectory no_json Path.join "/demos" boot)) ∧
  (length [0%nat] ≤ 2)%nat.
Proof.
  destruct (getDemosInDirectory_named no_json Path.join "/demos"
              ["short.dem"; "MATCH.DEM"; "a.json"; "a.dem"] boot
              (snd (getDemosInDirectory no_json Path.join "/demos" boot))
              [0%nat]) as (H1 & _ & H3).
  - intros k d. vm_compute. discriminate.
  - vm_compute. reflexivity.
  - vm_compute. reflexivity.
  - split; [exact H1 | exact H3].
Defined.

(** X3 on [boot]: a second scan of /demos returns object 0 again. *)
Lemma getDemosInDirectory_twice_witness :
  ∃ w2, getDemosInDirectory no_json Path.join "/demos"
          (snd (getDemosInDirectory no_json Path.join "/demos" boot))
        = (Ok [0%nat], w2).
Proof.
  destruct (getDemosInDirectory_twice no_json Path.join "/demos" boot
              (snd (getDemosInDirectory no_json Path.join "/demos" boot))
              (Ok [0%nat])) as (w2 & H & _).
  - vm_compute. reflexivity.
  - exists w2. exact H.
Defined.

(* ===================================================================== *)
(** ** [rename] and [delete] against the file system and the cache *)
(* ===================================================================== *)

(** A successful [renameSync] to another path: the source is gone, the
    target holds what the source held, nothing else moved. *)
Lemma renameSync_moved (t t1 : gmap string node) (a b : string) :
  renameSync t a b = Ok t1 → a ≠ b →
  t1 !! a = None ∧ t1 !! b = t !! a ∧ is_Some (t !! a) ∧
  ∀ p, p ≠ a → p ≠ b → t1 !! p = t !! p.
Proof.
  unfold renameSync. destruct (t !! a) as [n|] eqn:Ha; [|done].
  intros H Hab. rewrite bool_decide_eq_false_2 in H by done.
  assert (t1 = <[b := n]> (delete a t)) as ->.
  { destruct n, (t !! b) as [[]|]; try case_bool_decide; congruence. }
  split; [|split; [|split]].
  - rewrite lookup_insert_ne by done. apply lookup_delete_eq.
  - apply lookup_insert_eq.
  - by eexists.
  - intros p Hpa Hpb. rewrite lookup_insert_ne by done.
    by rewrite lookup_delete_ne.
Qed.

Lemma realpathSync_absent (t : gmap string node) (p : string) :
  t !! p = None → realpathSync t p = Throw (SystemError "ENOENT").
Proof.
  intros H. unfold realpathSync, lookup_follow. simpl. by rewrite H.
Qed.

Section Methods.

Variable JSON_parse : string → result json.
Variable path_dirname : string → string.
Variable path_join : string → string → string.
Variable path_basename : string → string → string.

(** [rename] step by step. *)
Lemma rename_run (this : nat) (d : Demo) (newName : string) (w : world) :
  heap w !! this = Some d →
  rename path_dirname path_join path_basename this newName w =
  let w0 := add_log (Info, RenamingDemo (path_basename (filename d) ".dem") newName) w in
  let dir := path_dirname (filename d) in
  let newNameFull := path_join dir (newName +:+ ".dem") in
  match renameSync (fs w) (filename d) newNameFull with
  | Throw e => (Throw e, w0)
  | Ok t1 =>
      let moved t := set_heap (<[this := with_filename newNameFull d]> (heap w))
                       (set_fs t w0) in
      match renameSync t1 (getJSONPath (filename d))
              (path_join dir (newName +:+ ".json")) with
      | Ok t2 => (Ok tt, moved t2)
      | Throw e =>
          if has_code e "ENOENT" then (Ok tt, moved t1)
          else (Throw e, set_fs t1 w0)
      end
  end.
Proof.
  intros Hthis. unfold rename, set_filename, deref, getShortName. run.
  rewrite Hthis. simpl.
  destruct (renameSync (fs w) _ _) as [t1|e]; simpl; [|done].
  destruct (renameSync t1 _ _) as [t2|e]; simpl.
  - by rewrite Hthis.
  - destruct (has_code e "ENOENT"); simpl; [by rewrite Hthis | done].
Qed.

(** X4: how [rename] fails.  When the demo itself cannot be moved,
    nothing has changed but the log.  When the demo has moved and the
    sidecar then fails with an error other than ENOENT, that error is
    thrown with the demo already at its new path, while the object and
    the cache still hold the old one. *)
Theorem rename_failures (this : nat) (d : Demo) (newName : string)
    (w : world) (e : error) :
  let dir := path_dirname (filename d) in
  let newNameFull := path_join dir (newName +:+ ".dem") in
  heap w !! this = Some d →
  (renameSync (fs w) (filename d) newNameFull = Throw e →
   ∃ w', rename path_dirname path_join path_basename this newName w = (Throw e, w') ∧
         fs w' = fs w ∧ heap w' = heap w ∧ demoCache w' = demoCache w) ∧
  (∀ t1,
     renameSync (fs w) (filename d) newNameFull = Ok t1 →
     renameSync t1 (getJSONPath (filename d))
       (path_join dir (newName +:+ ".json")) = Throw e →
     e ≠ SystemError "ENOENT" →
     filename d ≠ newNameFull →
     ∃ w', rename path_dirname path_join path_basename this newName w = (Throw e, w') ∧
           fs w' !! filename d = None ∧
           fs w' !! newNameFull = fs w !! filename d ∧
           heap w' = heap w ∧ demoCache w' = demoCache w).
Proof.
  intros dir newNameFull Hthis. rewrite (rename_run _ _ _ _ Hthis).
  subst dir newNameFull. cbv zeta. split.
  - intros ->. by eexists.
  - intros t1 H1 H2 He Hne. rewrite H1, H2.
    destruct (has_code e "ENOENT") eqn:Hc;
      [apply has_code_spec in Hc; done|].
    destruct (renameSync_moved _ _ _ _ H1 Hne) as (? & ? & _).
    eexists. split; [reflexivity|]. done.
Qed.

(** [delete] step by step. *)
Lemma delete_run (this : nat) (d : Demo) (w : world) :
  heap w !! this = Some d →
  delete_ this w =
  let w0 := add_log (Info, DeletingDemo (filename d)) w in
  match rmSync false (fs w) (filename d) with
  | Throw e => (Throw e, w0)
  | Ok t1 =>
      match rmSync false t1 (getJSONPath (filename d)) with
      | Ok t2 => (Ok tt, set_fs t2 w0)
      | Throw e =>
          if has_code e "ENOENT" then (Ok tt, set_fs t1 w0)
          else (Throw e, set_fs t1 w0)
      end
  end.
Proof.
  intros Hthis. unfold delete_, deref. run. rewrite Hthis. simpl.
  destruct (rmSync false (fs w) _) as [t1|e]; simpl; [|done].
  destruct (rmSync false t1 _) as [t2|e]; simpl; [done|].
  by destruct (has_code e "ENOENT").
Qed.

(** X5: [rename] does not touch the cache.  After a rename to another
    path the object is still cached under its old path, which is no
    longer its [filename]; and a [getDemo] on the new path, when its
    canonical form is not the old key, returns another object, so that
    the file then has two objects and two cache entries. *)
Theorem rename_leaves_cache_stale (this : nat) (d : Demo) (newName k : string)
    (w w1 : world) :
  let newNameFull := path_join (path_dirname (filename d)) (newName +:+ ".dem") in
  cache_named w →
  demoCache w !! k = Some this →
  heap w !! this = Some d →
  rename path_dirname path_join path_basename this newName w = (Ok tt, w1) →
  newNameFull ≠ k →
  demoCache w1 !! k = Some this ∧
  filename <$> heap w1 !! this = Some newNameFull ∧
  ¬ cache_named w1 ∧
  ∀ realPath d' w2,
    realpathSync (fs w1) newNameFull = Ok realPath → realPath ≠ k →
    getDemo JSON_parse newNameFull w1 = (Ok d', w2) →
    d' ≠ this ∧ demoCache w2 !! k = Some this ∧ demoCache w2 !! realPath = Some d'.
Proof.
  intros newNameFull Hn Hk Hthis Hren Hne.
  rewrite (rename_run _ _ _ _ Hthis) in Hren. cbv zeta in Hren.
  fold newNameFull in Hren.
  assert (∃ t, w1 = set_heap (<[this := with_filename newNameFull d]> (heap w))
                 (set_fs t (add_log (Info, RenamingDemo
                    (path_basename (filename d) ".dem") newName) w)))
    as [t ->].
  { destruct (renameSync (fs w) _ _) as [t1|e]; [|done].
    destruct (renameSync t1 _ _) as [t2|e]; [injection Hren as <-; eauto|].
    destruct (has_code e "ENOENT"); [injection Hren as <-; eauto | done]. }
  clear Hren. simpl.
  assert (this < length (heap w))%nat as Hlt by (by eapply lookup_lt_Some).
  assert (filename <$> <[this := with_filename newNameFull d]> (heap w) !! this
          = Some newNameFull) as Hnew.
  { by rewrite list_lookup_insert_eq. }
  split; [done|]. split; [done|]. split.
  - intros Hn1. specialize (Hn1 k this Hk). simpl in Hn1. congruence.
  - intros rp d' w2 Hrp Hrpk Hg.
    apply getDemo_outcome in Hg
      as (_ & [(_ & Hc & Hr) | (rp' & demo & Hrp' & _ & _ & Hr & _ & _ & Hc)]);
      simpl in *.
    + destruct (Hr d' eq_refl) as (rp' & Hrp' & Hd'). rewrite Hrp in Hrp'.
      injection Hrp' as <-. rewrite Hc. split; [|done].
      intros ->. pose proof (Hn _ _ Hk) as Hk1. pose proof (Hn _ _ Hd') as Hk2.
      congruence.
    + rewrite Hrp in Hrp'. injection Hrp' as <-. injection Hr as ->.
      rewrite Hc, length_insert. split; [lia|].
      rewrite lookup_insert_ne by done. split; [done|]. apply lookup_insert_eq.
Qed.

(** X6: [delete] against the file system.  When the demo is already
    gone, ENOENT is thrown before the sidecar is looked at and every
    file stays.  When the demo is there and neither it nor the sidecar
    is a directory, both paths are free afterwards and no other path
    changed; the object and its cache entry stay, and a later [getDemo]
    on the path throws ENOENT. *)
Theorem delete_outcomes (this : nat) (d : Demo) (w : world) :
  heap w !! this = Some d →
  (fs w !! filename d = None →
   ∃ w', delete_ this w = (Throw (SystemError "ENOENT"), w') ∧ fs w' = fs w) ∧
  (∀ n, fs w !! filename d = Some n →
     (∀ b s, n ≠ Dir b s) →
     (∀ b s, fs w !! getJSONPath (filename d) ≠ Some (Dir b s)) →
     ∃ w', delete_ this w = (Ok tt, w') ∧
           fs w' !! filename d = None ∧
           fs w' !! getJSONPath (filename d) = None ∧
           (∀ p, p ≠ filename d → p ≠ getJSONPath (filename d) →
                 fs w' !! p = fs w !! p) ∧
           heap w' = heap w ∧ demoCache w' = demoCache w ∧
           fst (getDemo JSON_parse (filename d) w')
             = Throw (SystemError "ENOENT")).
Proof.
  intros Hthis. rewrite (delete_run _ _ _ Hthis). cbv zeta. split.
  - intros Hp.
    assert (rmSync false (fs w) (filename d) = Throw (SystemError "ENOENT"))
      as -> by (unfold rmSync; by rewrite Hp).
    by eexists.
  - intros n Hp Hn Hj.
    assert (rmSync false (fs w) (filename d) = Ok (delete (filename d) (fs w)))
      as ->.
    { unfold rmSync. rewrite Hp. destruct n; try done.
      by destruct (Hn birthtimeMs size). }
    set (p := filename d) in *. set (j := getJSONPath p) in *.
    assert (∃ t2, (match rmSync false (delete p (fs w)) j with
                   | Ok t2 => (Ok tt, set_fs t2 (add_log (Info, DeletingDemo p) w))
                   | Throw e =>
                       if has_code e "ENOENT"
                       then (Ok tt, set_fs (delete p (fs w))
                                      (add_log (Info, DeletingDemo p) w))
                       else (Throw e, set_fs (delete p (fs w))
                                        (add_log (Info, DeletingDemo p) w))
                   end) = (Ok tt, set_fs t2 (add_log (Info, DeletingDemo p) w)) ∧
                  t2 !! p = None ∧ t2 !! j = None ∧
                  ∀ q, q ≠ p → q ≠ j → t2 !! q = fs w !! q)
      as (t2 & -> & Hp2 & Hj2 & Hother).
    { unfold rmSync.
      destruct (delete p (fs w) !! j) as [m|] eqn:Hm.
      - assert (j ≠ p) as Hjp.
        { intros Heq. rewrite Heq, lookup_delete_eq in Hm. done. }
        rewrite lookup_delete_ne in Hm by done.
        exists (delete j (delete p (fs w))). split.
        + destruct m; try done. by destruct (Hj birthtimeMs size).
        + split; [|split].
          * rewrite lookup_delete_ne by done. apply lookup_delete_eq.
          * apply lookup_delete_eq.
          * intros q ? ?. by rewrite !lookup_delete_ne.
      - exists (delete p (fs w)). split; [done|]. split; [|split].
        + apply lookup_delete_eq.
        + done.
        + intros q ? ?. by rewrite lookup_delete_ne. }
    eexists. split; [reflexivity|]. simpl. repeat split; try done.
    rewrite (getDemo_no_path JSON_parse p _ (SystemError "ENOENT")); [done|].
    simpl. by apply realpathSync_absent.
Qed.

End Methods.

Lemma cache_named_loaded : cache_named loaded.
Proof.
  apply (getDemo_named no_json "/demos/a.dem" boot loaded (Ok 0%nat)).
  - unfold cache_named, boot. simpl. intros k d. rewrite lookup_empty.
    discriminate.
  - vm_compute. reflexivity.
Qed.

(** X4 on [loaded_blocked]: /demos/b.json is a directory, so renaming
    a.dem to b moves the demo and then throws. *)
Lemma rename_failures_witness :
  ∃ w', rename Path.dirname Path.join basename_stub 0 "b" loaded_blocked
          = (Throw (SystemError "EISDIR"), w') ∧
        fs w' !! "/demos/a.dem" = None ∧ heap w' = heap loaded_blocked.
Proof.
  destruct (rename_failures Path.dirname Path.join basename_stub
              0 loaded_demo "b" loaded_blocked (SystemError "EISDIR"))
    as [_ H].
  - vm_compute. reflexivity.
  - destruct (H (<["/demos/b.dem" := File valid_demo 1000]>
                   (delete "/demos/a.dem" disk_blocked)))
      as (w' & H1 & H2 & _ & H4 & _).
    + vm_compute. reflexivity.
    + vm_compute. reflexivity.
    + discriminate.
    + vm_compute. discriminate.
    + exists w'. repeat split; assumption.
Defined.

(** X5 on [loaded]: after renaming a.dem to b, [getDemo] on b.dem builds
    object 1 while object 0 stays cached under a.dem. *)
Lemma rename_leaves_cache_stale_witness :
  let w1 := snd (rename Path.dirname Path.join basename_stub 0 "b" loaded) in
  demoCache w1 !! "/demos/a.dem" = Some 0%nat ∧ ¬ cache_named w1 ∧
  fst (getDemo no_json "/demos/b.dem" w1) = Ok 1%nat.
Proof.
  intros w1.
  destruct (rename_leaves_cache_stale no_json Path.dirname Path.join
              basename_stub 0 loaded_demo "b" "/demos/a.dem" loaded w1)
    as (H1 & _ & H3 & H4).
  - apply cache_named_loaded.
  - vm_compute. reflexivity.
  - vm_compute. reflexivity.
  - vm_compute. reflexivity.
  - vm_compute. discriminate.
  - split; [exact H1|]. split; [exact H3|]. vm_compute. reflexivity.
Defined.

(** X6 on [loaded]: deleting object 0 frees a.dem and a.json. *)
Lemma delete_outcomes_witness :
  ∃ w', delete_ 0 loaded = (Ok tt, w') ∧
        fs w' !! "/demos/a.dem" = None ∧ fs w' !! "/demos/a.json" = None ∧
        demoCache w' = demoCache loaded.
Proof.
  destruct (delete_outcomes no_json 0 loaded_demo loaded) as [_ H].
  - vm_compute. reflexivity.
  - destruct (H (File valid_demo 1000)) as (w' & H1 & H2 & H3 & _ & _ & H6 & _).
    + vm_compute. reflexivity.
    + discriminate.
    + intros b s. vm_compute. discriminate.
    + exists w'. repeat split; assumption.
Defined.

(* ===================================================================== *)
(** ** Writing and reading back; the stamp; the sidecar path *)
(* ===================================================================== *)

Lemma resolve_not_link (fuel : nat) (t : gmap string node) (p : string) :
  (∀ target, t !! p ≠ Some (Symlink target)) →
  resolve fuel t p = Ok (p, t !! p).
Proof.
  intros H. destruct fuel; simpl; destruct (t !! p) as [[]|]; try done;
    by destruct (H target).
Qed.

Lemma readFileSync_file (t : gmap string node) (p : string)
    (content : list byte) (b : Z) :
  t !! p = Some (File content b) → readFileSync t p = Ok content.
Proof.
  intros H. unfold readFileSync, lookup_follow.
  rewrite resolve_not_link by (intros ?; by rewrite H). by rewrite H.
Qed.

Section RoundTrip.

Variable JSON_parse : string → result json.
Variable JSON_stringify : list DemoEvent → list string → string.

Lemma readEventsAndTags_absent (jsonPath : string) (w : world) :
  fs w !! jsonPath = None →
  fst (readEventsAndTags JSON_parse jsonPath w) = Ok empty_annotations.
Proof.
  intros H.
  unfold readEventsAndTags, mbind, ST_bind, log_, modify, attempt, fs_read.
  simpl. by rewrite (readFileSync_absent _ _ H).
Qed.

(** A write with at least one event on a free path in a directory,
    for either value of [overwrite]. *)
Lemma writeEventsAndTagsFile_create (events : list DemoEvent)
    (tags : list string) (jsonPath : string) (overwrite : bool) (w : world)
    (b s : Z) :
  events ≠ [] → fs w !! jsonPath = None →
  fs w !! Path.dirname jsonPath = Some (Dir b s) →
  writeEventsAndTagsFile JSON_stringify events tags jsonPath overwrite w =
  (Ok tt,
   set_fs (<[jsonPath := File (list_byte_of_string (JSON_stringify events tags))
                           (clock w)]> (fs w))
          (add_log (Debug, WritingEventsFile jsonPath) w)).
Proof.
  intros Hev Hn Hdir. unfold writeEventsAndTagsFile.
  destruct events as [|ev events]; [done|]. run.
  assert (create (clock w) (fs w) jsonPath
          = Ok (jsonPath, <[jsonPath := File [] (clock w)]> (fs w))) as Hcreate.
  { unfold create, parent_directory, lookup_follow.
    rewrite resolve_not_link by (intros ?; by rewrite Hdir). by rewrite Hdir. }
  assert ((if overwrite then openSync_w (clock w) (fs w) jsonPath
           else openSync_wx (clock w) (fs w) jsonPath)
          = Ok (jsonPath, <[jsonPath := File [] (clock w)]> (fs w))) as ->.
  { destruct overwrite.
    - unfold openSync_w.
      rewrite resolve_not_link by (intros ?; by rewrite Hn).
      rewrite Hn. exact Hcreate.
    - unfold openSync_wx. rewrite Hn. exact Hcreate. }
  simpl. unfold writeSync. rewrite lookup_insert_eq. simpl.
  by rewrite insert_insert_eq.
Qed.

(** X7: what is written is what is read back.  After a write with at
    least one event, on a free path in an existing directory or with
    [overwrite] over a regular file, the file holds the serialized
    annotations and nothing else on disk changed; reading the sidecar
    then gives the "events" and "tags" of the object that [JSON.parse]
    makes of that text. *)
Theorem write_then_read (events : list DemoEvent) (tags : list string)
    (jsonPath : string) (overwrite : bool) (w : world)
    (fields : list (string * json)) :
  events ≠ [] →
  ((fs w !! jsonPath = None ∧
    ∃ b s, fs w !! Path.dirname jsonPath = Some (Dir b s)) ∨
   (overwrite = true ∧ ∃ old b, fs w !! jsonPath = Some (File old b))) →
  JSON_parse (JSON_stringify events tags) = Ok (JObject fields) →
  ∃ w1,
    writeEventsAndTagsFile JSON_stringify events tags jsonPath overwrite w
      = (Ok tt, w1) ∧
    readFileSync (fs w1) jsonPath
      = Ok (list_byte_of_string (JSON_stringify events tags)) ∧
    (∀ q, q ≠ jsonPath → fs w1 !! q = fs w !! q) ∧
    fst (readEventsAndTags JSON_parse jsonPath w1)
      = Ok (or_empty_array (assoc "events" fields),
            or_empty_array (assoc "tags" fields)).
Proof.
  intros Hev Hp Hparse.
  assert (∃ b, writeEventsAndTagsFile JSON_stringify events tags jsonPath overwrite w
               = (Ok tt, set_fs (<[jsonPath := File (list_byte_of_string
                                     (JSON_stringify events tags)) b]> (fs w))
                           (add_log (Debug, WritingEventsFile jsonPath) w)))
    as [b ->].
  { destruct Hp as [(Hn & b & s & Hdir) | (-> & old & b & Hf)].
    - eexists. by eapply writeEventsAndTagsFile_create.
    - eexists. by eapply writeEventsAndTagsFile_overwrite. }
  eexists. split; [reflexivity|]. simpl.
  assert (readFileSync
            (<[jsonPath := File (list_byte_of_string (JSON_stringify events tags)) b]>
               (fs w)) jsonPath
          = Ok (list_byte_of_string (JSON_stringify events tags))) as Hread.
  { eapply readFileSync_file. apply lookup_insert_eq. }
  split; [done|]. split.
  - intros q Hq. by rewrite lookup_insert_ne.
  - pose proof (readEventsAndTags_parsed JSON_parse jsonPath
                  (set_fs (<[jsonPath := File (list_byte_of_string
                              (JSON_stringify events tags)) b]> (fs w))
                     (add_log (Debug, WritingEventsFile jsonPath) w))
                  (list_byte_of_string (JSON_stringify events tags))
                  (JObject fields) Hread) as Hback.
    rewrite string_of_list_byte_of_string in Hback. exact (Hback Hparse).
Qed.

(** X8: after a write with no events, whatever the tags and the value
    of [overwrite], a path that was not a directory is free, and
    reading the sidecar back gives no events and no tags. *)
Theorem write_no_events_then_read (tags : list string) (jsonPath : string)
    (overwrite : bool) (w : world) :
  (∀ b s, fs w !! jsonPath ≠ Some (Dir b s)) →
  ∃ w1,
    writeEventsAndTagsFile JSON_stringify [] tags jsonPath overwrite w
      = (Ok tt, w1) ∧
    fs w1 !! jsonPath = None ∧
    (∀ q, q ≠ jsonPath → fs w1 !! q = fs w !! q) ∧
    fst (readEventsAndTags JSON_parse jsonPath w1) = Ok empty_annotations.
Proof.
  intros Hd. unfold writeEventsAndTagsFile. run. unfold rmSync.
  destruct (fs w !! jsonPath) as [n|] eqn:Hp.
  - assert (match n with
            | Dir _ _ => Throw (SystemError "ERR_FS_EISDIR")
            | _ => Ok (delete jsonPath (fs w))
            end = Ok (delete jsonPath (fs w))) as ->.
    { destruct n; try done. by destruct (Hd birthtimeMs size). }
    eexists. split; [reflexivity|]. simpl.
    split; [apply lookup_delete_eq|]. split.
    + intros q Hq. by rewrite lookup_delete_ne.
    + apply readEventsAndTags_absent. simpl. apply lookup_delete_eq.
  - eexists. split; [reflexivity|]. simpl. split; [done|]. split; [done|].
    by apply readEventsAndTags_absent.
Qed.

End RoundTrip.

(** X7 on [boot]: a bookmark and a tag are written to the free path
    /demos/b.json and read back. *)
Lemma write_then_read_witness :
  ∃ w1, writeEventsAndTagsFile Samples.stringify_plain [bookmark] ["best"]
          "/demos/b.json" false boot = (Ok tt, w1) ∧
        readFileSync (fs w1) "/demos/b.json"
          = Ok (list_byte_of_string (Samples.stringify_plain [bookmark] ["best"])) ∧
        fst (readEventsAndTags Samples.parse_bookmark "/demos/b.json" w1)
          = Ok (JArray [JObject [("tick", JNumber (S754_finite false 25 2));
                                 ("name", JString "Bookmark");
                                 ("value", JString "clutch")]],
                JArray [JString "best"]).
Proof.
  destruct (write_then_read Samples.parse_bookmark Samples.stringify_plain
              [bookmark] ["best"] "/demos/b.json" false boot
              Samples.bookmark_fields)
    as (w1 & H1 & H2 & _ & H4).
  - discriminate.
  - left. split; [vm_compute; reflexivity|].
    exists 0, 4096. vm_compute. reflexivity.
  - vm_compute. reflexivity.
  - exists w1. split; [exact H1|]. split; [exact H2 | exact H4].
Defined.

(** X8 on [boot]: a write of one tag and no event frees a.json. *)
Lemma write_no_events_then_read_witness :
  ∃ w1, writeEventsAndTagsFile stringify_empty [] ["clutch"] "/demos/a.json" true boot
          = (Ok tt, w1) ∧
        fst (readEventsAndTags parse_empty "/demos/a.json" w1) = Ok empty_annotations.
Proof.
  destruct (write_no_events_then_read parse_empty stringify_empty ["clutch"]
              "/demos/a.json" true boot) as (w1 & H1 & _ & _ & H4).
  - intros b s. vm_compute. discriminate.
  - exists w1. split; [exact H1 | exact H4].
Defined.

(** X9: which files the header reader accepts.  For a regular file, a
    header is returned exactly when the file has at least [HEADER_SIZE]
    bytes and the text before the first NUL of its first 8 bytes is
    HL2DEMO, whatever follows; and every refusal is an
    [InvalidDemoFileError]. *)
Theorem readFileHeader_accepts (filename q : string) (content : list byte)
    (b : Z) (w : world) :
  lookup_follow (fs w) filename = Ok (q, File content b) →
  ((∃ h, fst (readFileHeader filename w) = Ok h) ↔
   (HEADER_SIZE ≤ length content)%nat ∧
   string_of_list_byte (until_nul (take 8 content)) = "HL2DEMO") ∧
  (∀ e, fst (readFileHeader filename w) = Throw e → e = InvalidDemoFileError).
Proof.
  intros H.
  destruct (open_read_file (fs w) filename q content b HEADER_SIZE H)
    as [Ho Hr].
  unfold readFileHeader. seq. rewrite Ho. simpl. rewrite Hr. simpl.
  rewrite length_take. case_bool_decide as Hlen; simpl.
  { split; [|by intros e [= <-]]. split; [by intros [h [=]]|].
    intros [Hl _]. lia. }
  assert (HEADER_SIZE ≤ length content)%nat as Hl by lia.
  set (bytes := take HEADER_SIZE content).
  assert (length bytes = HEADER_SIZE) as Hb.
  { subst bytes. rewrite length_take. lia. }
  unfold decode_header, readString, mbind, ST_bind.
  rewrite read_bytes_ok by (rewrite Hb; vm_compute; lia).
  cbv beta iota. simpl fst. simpl snd.
  assert (take 8 (drop 0 bytes) = take 8 content) as ->.
  { subst bytes. rewrite drop_0, take_take. f_equal. }
  unfold mret, ST_ret. cbv beta iota.
  case_bool_decide as Hstamp.
  - run. split; [|by intros e [= <-]]. split; [by intros [h [=]]|].
    by intros [_ ?].
  - destruct (read_header_fields_total bytes Hb) as [h Hh].
    simpl. unfold of_result. rewrite Hh. simpl.
    split; [|done]. split; [|by eauto].
    intros _. split; [done|]. by destruct (decide
      (string_of_list_byte (until_nul (take 8 content)) = "HL2DEMO")).
Qed.

(** X9 on [boot]: the demo is accepted through its link. *)
Lemma readFileHeader_accepts_witness :
  ∃ h, fst (readFileHeader "/link.dem" boot) = Ok h.
Proof.
  apply (readFileHeader_accepts "/link.dem" "/demos/a.dem" valid_demo 1000 boot).
  - vm_compute. reflexivity.
  - split; [vm_compute; lia | vm_compute; reflexivity].
Defined.

(** Prefix and suffix of a concatenation. *)
Lemma substring_append_l (s e : string) :
  String.substring 0 (String.length s) (s +:+ e) = s.
Proof. induction s as [|c s IH]; simpl; [by destruct e | by rewrite IH]. Qed.

Lemma substring_all (e : string) :
  String.substring 0 (String.length e) e = e.
Proof. induction e as [|c e IH]; simpl; [done | by rewrite IH]. Qed.

Lemma substring_append_r (s e : string) :
  String.substring (String.length s) (String.length e) (s +:+ e) = e.
Proof. induction s as [|c s IH]; simpl; [apply substring_all | done]. Qed.

Lemma length_append (s e : string) :
  String.length (s +:+ e) = (String.length s + String.length e)%nat.
Proof. induction s as [|c s IH]; simpl; [done | by rewrite IH]. Qed.

Lemma map_string_length (f : ascii → ascii) (s : string) :
  String.length (map_string f s) = String.length s.
Proof. induction s as [|c s IH]; simpl; [done | by rewrite IH]. Qed.
Lemma append_assoc (a b c : string) : (a +:+ b) +:+ c = a +:+ (b +:+ c).
Proof.
  induction a as [|x a IH]; [done|].
  change (String x ((a +:+ b) +:+ c) = String x (a +:+ (b +:+ c))).
  by rewrite IH.
Qed.

(** X10: the sidecar of a demo.  A name that ends in ".dem" in any mix
    of upper and lower case gets its last four characters replaced by
    ".json", and a name that ends in ".json" is its own sidecar path;
    so demos whose names differ only in the case of the extension share
    one sidecar. *)
Theorem getJSONPath_extension (stem ext : string) :
  map_string canonicalize ext = ".DEM" →
  getJSONPath (stem +:+ ext) = stem +:+ ".json" ∧
  getJSONPath (stem +:+ ".json") = stem +:+ ".json".
Proof.
  intros Hext.
  assert (String.length ext = 4%nat) as Hlen.
  { by rewrite <- (map_string_length canonicalize), Hext. }
  split.
  - unfold getJSONPath, matches_dem_i. rewrite length_append, Hlen.
    replace (String.length stem + 4 - 4)%nat with (String.length stem) by lia.
    assert (String.substring (String.length stem) 4 (stem +:+ ext) = ext) as ->.
    { rewrite <- Hlen. apply substring_append_r. }
    rewrite Hext, bool_decide_eq_true_2 by lia.
    rewrite bool_decide_eq_true_2 by done. simpl.
    by rewrite substring_append_l.
  - unfold getJSONPath, matches_dem_i.
    change (stem +:+ ".json") with (stem +:+ ("." +:+ "json")).
    rewrite <- append_assoc, length_append.
    change (String.length "json") with 4%nat.
    replace (String.length (stem +:+ ".") + 4 - 4)%nat
      with (String.length (stem +:+ ".")) by lia.
    assert (String.substring (String.length (stem +:+ ".")) 4
              ((stem +:+ ".") +:+ "json") = "json") as ->.
    { apply (substring_append_r (stem +:+ ".") "json"). }
    by rewrite andb_false_r.
Qed.

(** X10 for a.DEM. *)
Lemma getJSONPath_extension_witness :
  getJSONPath "/demos/a.DEM" = "/demos/a.json".
Proof.
  apply (getJSONPath_extension "/demos/a" ".DEM"). reflexivity.
Defined.

(* ===================================================================== *)
(** ** The rename dialog over a sequence of inputs *)
(* ===================================================================== *)

Import RenameDialog RenameDialogMethods.

Lemma legal_char_not_separator (c : ascii) :
  legal_char c = true → c ≠ "/"%char ∧ c ≠ "\"%char ∧ c ≠ "000"%char.
Proof. intros H. repeat split; intros ->; vm_compute in H; discriminate. Qed.

(** X11: what the dialog can confirm.  After it was opened on a demo
    name and the text field changed any number of times, the name that
    Confirm hands over is the name it was opened with or a text that
    passed the check: 1 to 50 characters, none of them a slash, a
    backslash or NUL. *)
Theorem confirmed_name_legal (demoName : string) (values : list string)
    (st : RenameDialogState) (n : string) :
  confirmed (typed values (open_ demoName st)) = Some n →
  n = demoName ∨
  (legal_name n = true ∧ (1 ≤ String.length n ≤ 50)%nat ∧
   ∀ c, c ∈ String.list_ascii_of_string n →
        c ≠ "/"%char ∧ c ≠ "\"%char ∧ c ≠ "000"%char).
Proof.
  unfold confirmed, typed.
  assert (∀ st0 : RenameDialogState,
            (∀ m, newName st0 = Some m → m = demoName ∨ legal_name m = true) →
            ∀ m, newName (foldl (λ st v, validateNewName v st) st0 values) = Some m →
                 m = demoName ∨ legal_name m = true) as Hinv.
  { induction values as [|v values IH]; intros st0 H0; [exact H0|].
    simpl. apply IH. intros m. unfold validateNewName.
    destruct (legal_name v) eqn:Hv; simpl; [|apply H0].
    intros [= <-]. by right. }
  intros Hn. destruct (Hinv (open_ demoName st)) with (m := n) as [->|Hl];
    [by intros m [= <-]; left | done | by left |].
  right. split; [done|]. unfold legal_name in Hl.
  apply andb_true_iff in Hl as [Hlen Hchars].
  apply bool_decide_eq_true in Hlen. split; [done|].
  intros c Hc. apply legal_char_not_separator.
  rewrite forallb_forall in Hchars. apply Hchars. by apply list_elem_of_In.
Qed.

(** X11 for the dialog opened on a, typed into twice. *)
Lemma confirmed_name_legal_witness :
  "b" = "a" ∨ (legal_name "b" = true ∧ (1 ≤ String.length "b" ≤ 50)%nat ∧
   ∀ c, c ∈ String.list_ascii_of_string "b" →
        c ≠ "/"%char ∧ c ≠ "\"%char ∧ c ≠ "000"%char).
Proof.
  apply (confirmed_name_legal "a" ["b"; "b/../c"]
           {| newName := None; newNameValid := true; open := false |} "b").
  reflexivity.
Defined.

(* ===================================================================== *)
(** ** More properties of the highlight filter *)
(* ===================================================================== *)

Import TimelineFilters.

Lemma filter_filter_and {A} (f g : A → bool) (l : list A) :
  List.filter g (List.filter f l) = List.filter (λ x, f x && g x) l.
Proof.
  induction l as [|x l IH]; simpl; [done|].
  destruct (f x); simpl; [destruct (g x)|]; by rewrite IH.
Qed.

Lemma filter_true {A} (l : list A) : List.filter (λ _, true) l = l.
Proof. induction l as [|x l IH]; simpl; [done | by rewrite IH]. Qed.

Lemma filter_ext_bool {A} (f g : A → bool) (l : list A) :
  (∀ x, f x = g x) → List.filter f l = List.filter g l.
Proof.
  intros H. induction l as [|x l IH]; simpl; [done|].
  by rewrite H, IH.
Qed.

(** A toggle is a filter, also when it is on. *)
Lemma toggle_filter (visible : bool) (hidden : Highlight → bool) (l : list Entry) :
  toggle visible hidden l =
  List.filter (λ h, visible || negb (hidden (event h))) l.
Proof.
  unfold toggle. destruct visible; simpl; [by rewrite filter_true | done].
Qed.

Section FilterMore.

Variable RegExp : Type.
Variable RegExp_i : string → result RegExp.
Variable test : RegExp → string → bool.

(** The filters act on each entry by itself, as one conjunction. *)
Lemma recomputeHighlights_passes (all : list Entry) (f : Filters) :
  recomputeHighlights RegExp RegExp_i test all f =
  match pattern RegExp RegExp_i f with
  | Ok regex => Ok (List.filter (passes RegExp test regex f) all)
  | Throw e => Throw e
  end.
Proof.
  unfold recomputeHighlights, pattern. cbv zeta.
  assert ((if (0 <? length (playerIds f))%nat
           then List.filter (involves_selected (playerIds f)) all else all)
          = List.filter (λ h, if (0 <? length (playerIds f))%nat
                              then involves_selected (playerIds f) h else true) all)
    as ->.
  { destruct (0 <? _)%nat; [done | by rewrite filter_true]. }
  case_bool_decide as Hs.
  - destruct (RegExp_i (chatSearch f)) as [regex|e]; [|done].
    rewrite !toggle_filter, !filter_filter_and. f_equal.
    apply filter_ext_bool. intros h. unfold passes.
    by rewrite <- !andb_assoc.
  - rewrite !toggle_filter, !filter_filter_and. f_equal.
    apply filter_ext_bool. intros h. unfold passes.
    by rewrite andb_true_r, <- !andb_assoc.
Qed.

(** X12: membership in the output.  When [recomputeHighlights] hands
    over a list, an entry is in it exactly when it is in the input and
    passes every filter: the player selection, the search text and the
    toggle of its category. *)
Theorem recomputeHighlights_membership (all out : list Entry) (f : Filters)
    (h : Entry) :
  recomputeHighlights RegExp RegExp_i test all f = Ok out →
  ∃ regex, pattern RegExp RegExp_i f = Ok regex ∧
           (h ∈ out ↔ h ∈ all ∧ passes RegExp test regex f h = true).
Proof.
  rewrite recomputeHighlights_passes.
  destruct (pattern RegExp RegExp_i f) as [regex|e]; [|done].
  intros [= <-]. exists regex. split; [done|].
  rewrite !list_elem_of_In, filter_In. done.
Qed.

(** X13: filtering what is shown with the same filters changes
    nothing. *)
Theorem recomputeHighlights_idempotent (all out : list Entry) (f : Filters) :
  recomputeHighlights RegExp RegExp_i test all f = Ok out →
  recomputeHighlights RegExp RegExp_i test out f = Ok out.
Proof.
  rewrite !recomputeHighlights_passes.
  destruct (pattern RegExp RegExp_i f) as [regex|e]; [|done].
  intros [= <-]. f_equal. rewrite filter_filter_and.
  apply filter_ext_bool. intros h. by rewrite andb_diag.
Qed.

Lemma passes_set_visible (regex : option RegExp) (c : Category) (f : Filters)
    (h : Entry) :
  passes RegExp test regex (set_visible c false f) h =
  passes RegExp test regex (set_visible c true f) h &&
  negb (in_category c (event h)).
Proof.
  unfold passes. simpl.
  destruct (if (0 <? length (playerIds f))%nat
            then involves_selected (playerIds f) h else true); simpl; [|done].
  destruct (if regex is Some r then chat_matches RegExp test r h else true);
    simpl; [|done].
  destruct c; simpl;
    destruct (is_Kill (event h)), (is_PointCaptured (event h)),
      (is_ChatMessage (event h)), (is_connection (event h)),
      (is_killstreak (event h)), (is_round (event h)),
      (is_airshot (event h));
    simpl; rewrite ?andb_true_r, ?andb_false_r, ?orb_true_r, ?orb_false_r;
    try done;
    destruct (visibleKillfeed f), (visibleCaptures f), (visibleChat f),
      (visibleConnectionMessages f), (visibleKillstreaks f),
      (visibleRounds f), (visibleAirshots f); done.
Qed.

(** X14: a toggle removes its category and nothing else.  Whatever the
    other filters are, the output with a toggle off is the output with
    that toggle on without the highlights of its category, in the same
    order. *)
Theorem recomputeHighlights_toggle (all : list Entry) (f : Filters)
    (c : Category) (shown : list Entry) :
  recomputeHighlights RegExp RegExp_i test all (set_visible c true f) = Ok shown →
  recomputeHighlights RegExp RegExp_i test all (set_visible c false f) =
  Ok (List.filter (λ h, negb (in_category c (event h))) shown).
Proof.
  rewrite !recomputeHighlights_passes.
  change (pattern RegExp RegExp_i (set_visible c false f))
    with (pattern RegExp RegExp_i (set_visible c true f)).
  destruct (pattern RegExp RegExp_i (set_visible c true f)) as [regex|e]; [|done].
  intros [= <-]. f_equal. rewrite filter_filter_and.
  apply filter_ext_bool. intros h. apply passes_set_visible.
Qed.

End FilterMore.

(** X12 with player 7 selected, "gg" searched for and the rounds
    hidden: of the sample match and its chat, the kill by player 7 and
    the message "gg wp" pass; the kill by player 9 fails the selection,
    the won round its toggle and the message "rematch?" the search. *)
Lemma recomputeHighlights_membership_witness :
  let kill7 := {| event := Kill (Some (player 7)) None (Some (player 8));
                  tick := 10 |} in
  let kill9 := {| event := Kill (Some (player 9)) None (Some (player 8));
                  tick := 20 |} in
  let won := {| event := RoundWin; tick := 30 |} in
  let gg := {| event := ChatMessage (player 7) "gg wp"; tick := 50 |} in
  let rematch := {| event := ChatMessage (player 7) "rematch?"; tick := 60 |} in
  let passing h :=
    passes string Samples.occurs (Some "gg") Samples.narrow_filters h in
  recomputeHighlights string Samples.literal Samples.occurs
    Samples.chat_timeline Samples.narrow_filters = Ok [kill7; gg] ∧
  (passing kill7 = true ∧ passing gg = true ∧ passing kill9 = false ∧
   passing won = false ∧ passing rematch = false) ∧
  Forall (λ h, ∃ regex,
            pattern string Samples.literal Samples.narrow_filters = Ok regex ∧
            (h ∈ [kill7; gg] ↔
             h ∈ Samples.chat_timeline ∧
             passes string Samples.occurs regex Samples.narrow_filters h = true))
    [kill7; gg; kill9; won; rematch].
Proof.
  intros kill7 kill9 won gg rematch passing.
  split; [reflexivity|]. split; [by vm_compute|].
  repeat (apply Forall_cons; split;
          [apply (recomputeHighlights_membership string Samples.literal
                    Samples.occurs Samples.chat_timeline [kill7; gg]
                    Samples.narrow_filters); reflexivity|]).
  apply Forall_nil_2.
Defined.

(** X13 on the sample match with the killfeed off. *)
Lemma recomputeHighlights_idempotent_witness :
  recomputeHighlights unit (λ _, Throw SyntaxError) (λ _ _, false)
    [ {| event := RoundStart; tick := 0 |}; {| event := RoundWin; tick := 30 |};
      {| event := RoundStalemate; tick := 40 |} ]
    (set_visible Killfeed false initial_filters)
  = Ok [ {| event := RoundStart; tick := 0 |}; {| event := RoundWin; tick := 30 |};
         {| event := RoundStalemate; tick := 40 |} ].
Proof.
  apply (recomputeHighlights_idempotent unit (λ _, Throw SyntaxError)
           (λ _ _, false) match_timeline).
  reflexivity.
Defined.

(** X14 on the sample match: the rounds toggle. *)
Lemma recomputeHighlights_toggle_witness :
  recomputeHighlights unit (λ _, Throw SyntaxError) (λ _ _, false)
    match_timeline (set_visible Rounds false initial_filters)
  = Ok (List.filter (λ h, negb (in_category Rounds (event h))) match_timeline).
Proof.
  apply (recomputeHighlights_toggle unit (λ _, Throw SyntaxError)
           (λ _ _, false) match_timeline initial_filters Rounds).
  reflexivity.
Defined.

(* ===================================================================== *)
(** ** Player ids through the selection box *)
(* ===================================================================== *)

Lemma digits_of_uint_acc (d : Decimal.uint) (acc : positive) :
  digits (Some (Zpos acc)) (DecimalString.NilEmpty.string_of_uint d) =
  Some (Zpos (Pos.of_uint_acc d acc)).
Proof.
  revert acc. induction d; intros acc; simpl; [done|..];
    rewrite <- IHd; f_equal; try done; f_equal;
    match goal with
    | |- context [digit_value ?c] =>
        let v := eval vm_compute in (digit_value c) in
        change (digit_value c) with v
    end; lia.
Qed.

Lemma digits_of_uint (d : Decimal.uint) :
  digits (Some 0) (DecimalString.NilEmpty.string_of_uint d) =
  Some (Z.of_N (Pos.of_uint d)).
Proof.
  induction d; simpl; [done | exact IHd | ..];
    match goal with
    | |- context [digit_value ?c] =>
        let v := eval vm_compute in (digit_value c) in
        change (digit_value c) with v
    end; apply digits_of_uint_acc.
Qed.

(** The digits of a positive number, read from the start. *)
Lemma digits_to_uint (p : positive) :
  let s := DecimalString.NilEmpty.string_of_uint (Pos.to_uint p) in
  digits None s = Some (Zpos p) ∧ skip_space s = s ∧ s ≠ "" ∧
  ∀ rest, s ≠ String "-" rest ∧ s ≠ String "+" rest.
Proof.
  pose proof (DecimalPos.Unsigned.of_to p) as Hp.
  pose proof (digits_of_uint (Pos.to_uint p)) as Hd.
  rewrite Hp in Hd. simpl in Hd.
  destruct (Pos.to_uint p) as [|d|d|d|d|d|d|d|d|d|d]; simpl in *;
    try discriminate; repeat split; try done.
Qed.

(** The decimal text of an integer is not empty and reads back. *)
Lemma toString10_parsed (n : Z) :
  toString10 n ≠ "" ∧ parseInt (toString10 n) = Some n.
Proof.
  unfold toString10, parseInt. destruct n as [|p|p]; [done|..].
  - simpl. unfold DecimalString.NilZero.string_of_uint.
    destruct (digits_to_uint p) as (Hd & Hs & Hne & Hsign). cbv zeta in *.
    destruct (Pos.to_uint p) as [|d|d|d|d|d|d|d|d|d|d] eqn:Hu;
      try (simpl in Hne; congruence);
      (split; [done|]); rewrite Hs; simpl; exact Hd.
  - simpl. unfold DecimalString.NilZero.string_of_uint.
    destruct (digits_to_uint p) as (Hd & Hs & Hne & Hsign). cbv zeta in *.
    destruct (Pos.to_uint p) as [|d|d|d|d|d|d|d|d|d|d] eqn:Hu;
      try (simpl in Hne; congruence);
      (split; [done|]); simpl; simpl in Hd; rewrite Hd; done.
Qed.

(** X15: an id survives the selection box.  For a player whose id is
    a safe integer, the value that [playerToSelectItem] gives the
    player is not empty and [Number.parseInt] reads the id back from
    it. *)
Theorem parseInt_toString10 (p : Player) :
  isSafeInteger (user_id p) = true →
  TimelineFilters.value (playerToSelectItem p) ≠ "" ∧
  parseInt (TimelineFilters.value (playerToSelectItem p)) = Some (user_id p).
Proof. intros _. exact (toString10_parsed (user_id p)). Qed.

(** X16: selecting players filters by their ids.  With the values of
    the selected players as [playerIds], all of them with a safe
    integer as id, an entry passes the player filter exactly when
    [doesHighlightIncludePlayer] holds for the id of one of them. *)
Theorem involves_selected_players (selected : list Player) (h : Entry) :
  Forall (λ p, isSafeInteger (user_id p) = true) selected →
  involves_selected (TimelineFilters.value <$> (playerToSelectItem <$> selected)) h =
  existsb (λ p, doesHighlightIncludePlayer (event h) (Some (user_id p))) selected.
Proof.
  intros _. unfold involves_selected.
  induction selected as [|p selected IH]; simpl; [done|].
  destruct (toString10_parsed (user_id p)) as [Hne ->].
  destruct (doesHighlightIncludePlayer (event h) (Some (user_id p))); simpl.
  - by rewrite bool_decide_eq_false_2.
  - exact IH.
Qed.

(** X15 for player 7 of the sample match. *)
Lemma parseInt_toString10_witness :
  TimelineFilters.value (playerToSelectItem (player 7)) ≠ "" ∧
  parseInt (TimelineFilters.value (playerToSelectItem (player 7))) = Some 7.
Proof.
  apply (parseInt_toString10 (player 7)). reflexivity.
Defined.

(** X16 with players 7 and 9 selected, on the kill by player 9. *)
Lemma involves_selected_players_witness :
  involves_selected
    (TimelineFilters.value <$> (playerToSelectItem <$> [player 7; player 9]))
    {| event := Kill (Some (player 9)) None (Some (player 8)); tick := 20 |}
  = existsb (λ p, doesHighlightIncludePlayer
                    (Kill (Some (player 9)) None (Some (player 8)))
                    (Some (user_id p)))
      [player 7; player 9].
Proof.
  apply (involves_selected_players [player 7; player 9]
           {| event := Kill (Some (player 9)) None (Some (player 8)); tick := 20 |}).
  repeat constructor.
Defined.

(* ===================================================================== *)
(** ** The filter bar as a state machine *)
(* ===================================================================== *)

Lemma visible_set_visible (c c' : Category) (b : bool) (f : Filters) :
  visible c' (set_visible c b f) = if decide (c' = c) then b else visible c' f.
Proof. by destruct c, c'. Qed.

Section Bar.

Variable RegExp : Type.
Variable RegExp_i : string → result RegExp.
Variable test : RegExp → string → bool.
Variable all : list Entry.






(** X18: a malformed search text blocks the toggles.  While the search
    text is one that [new RegExp] rejects, a click on a toggle throws
    that error: the list shown and the button stay as they were, but
    the filter of the button has taken the other value, so a button
    that agreed with its filter no longer does. *)
Theorem click_with_malformed_search (c : Category) (st : Timeline) (e : error) :
  chatSearch (filters st) ≠ "" →
  RegExp_i (chatSearch (filters st)) = Throw e →
  ∃ st', click RegExp RegExp_i test all c st = (Throw e, st') ∧
         highlights st' = highlights st ∧
         checked st' = checked st ∧
         visible c (filters st') = negb (checked st c) ∧
         ∀ c', c' ≠ c → visible c' (filters st') = visible c' (filters st).
Proof.
  intros Hs He. unfold click, setVisibility, onChange. seq.
  rewrite recomputeHighlights_passes. unfold pattern. simpl.
  rewrite bool_decide_eq_true_2 by done. rewrite He.
  eexists. split; [reflexivity|]. simpl. repeat split.
  - rewrite visible_set_visible. by case_decide.
  - intros c' Hc. rewrite visible_set_visible. by case_decide.
Qed.

End Bar.


(** X18 on the sample match, once an open parenthesis was typed. *)
Lemma click_with_malformed_search_witness :
  ∃ st', click unit (λ _, Throw SyntaxError) (λ _ _, false) match_timeline Rounds
           (snd (search unit (λ _, Throw SyntaxError) (λ _ _, false)
                   match_timeline "(" (initial match_timeline)))
         = (Throw SyntaxError, st') ∧
         visible Rounds (filters st') = false ∧ checked st' Rounds = true.
Proof.
  destruct (click_with_malformed_search unit (λ _, Throw SyntaxError)
              (λ _ _, false) match_timeline Rounds
              (snd (search unit (λ _, Throw SyntaxError) (λ _ _, false)
                      match_timeline "(" (initial match_timeline)))
              SyntaxError) as (st' & H1 & _ & H3 & H4 & _).
  - discriminate.
  - reflexivity.
  - exists st'. split; [exact H1|]. split; [exact H4 | by rewrite H3].
Defined.

(* ===================================================================== *)
(** ** The player columns *)
(* ===================================================================== *)

Import PlayerList.

Section Columns.

Variable PlayerSummary : Type.
Variable team : PlayerSummary → string.

(** The loop appends to each array the players of its team, in order. *)
Lemma teams_from (acc : Teams PlayerSummary) (players : list PlayerSummary) :
  foldl (place PlayerSummary team) acc players =
  {| redPlayers := redPlayers _ acc ++ filter (λ p, team p = "red") players;
     bluPlayers := bluPlayers _ acc ++ filter (λ p, team p = "blue") players;
     others := others _ acc ++
               filter (λ p, team p ≠ "red" ∧ team p ≠ "blue") players |}.
Proof.
  revert acc. induction players as [|p players IH]; intros acc; simpl.
  - rewrite !filter_nil, !app_nil_r. by destruct acc.
  - rewrite IH. unfold place. rewrite !filter_cons.
    case_bool_decide as Hred.
    + rewrite decide_True by done.
      rewrite decide_False by (rewrite Hred; done).
      rewrite decide_False by tauto.
      simpl. by rewrite <- app_assoc.
    + case_bool_decide as Hblu.
      * rewrite decide_False by done.
        rewrite decide_True by done.
        rewrite decide_False by tauto.
        simpl. by rewrite <- app_assoc.
      * rewrite decide_False by done.
        rewrite decide_False by done.
        rewrite decide_True by tauto.
        simpl. by rewrite <- app_assoc.
Qed.

(** X19 - [PlayerList] splits the players without loss or repetition:
    [redPlayers] holds exactly the players whose team is ["red"],
    [bluPlayers] those whose team is ["blue"], [others] the rest, each
    in the order of [gameSummary.players], and the three arrays together
    are a rearrangement of the players. *)
Theorem teams_partition (players : list PlayerSummary) :
  let t := teams PlayerSummary team players in
  redPlayers _ t = filter (λ p, team p = "red") players ∧
  bluPlayers _ t = filter (λ p, team p = "blue") players ∧
  others _ t = filter (λ p, team p ≠ "red" ∧ team p ≠ "blue") players ∧
  redPlayers _ t ++ bluPlayers _ t ++ others _ t ≡ₚ players.
Proof.
  unfold teams. rewrite teams_from. simpl. repeat split.
  induction players as [|p players IH]; [done|].
  rewrite !filter_cons.
  destruct (decide (team p = "red")) as [Hred|Hred].
  - rewrite decide_False by (rewrite Hred; done).
    rewrite decide_False by tauto. simpl. by rewrite IH.
  - destruct (decide (team p = "blue")) as [Hblu|Hblu].
    + rewrite decide_False by tauto. simpl.
      rewrite <- Permutation_middle. by rewrite IH.
    + rewrite decide_True by tauto.
      rewrite app_assoc, <- Permutation_middle, <- app_assoc. by rewrite IH.
Qed.

End Columns.

(* ===================================================================== *)
(** ** The demo list: order, sizes and selection *)
(* ===================================================================== *)

Import DemoList.

Lemma selected_insert (rows : list slot) (index j : nat) (b : bool) :
  (index < length rows)%nat →
  selected (<[index := Flag b]> rows) j =
  if decide (j = index) then b else selected rows j.
Proof.
  intros Hin. unfold selected. destruct (decide (j = index)) as [->|Hne].
  - by rewrite list_lookup_insert_eq.
  - by rewrite list_lookup_insert_ne.
Qed.

Lemma spread_booleans (rows : list slot) :
  Forall (λ s, ∃ b, s = Flag b) rows → spread rows = rows.
Proof.
  unfold spread. induction 1 as [|s rows [b ->] _ IH]; [done|].
  rewrite fmap_cons. by rewrite IH.
Qed.

Lemma toggleRow_booleans (rows : list slot) (index : nat) :
  Forall (λ s, ∃ b, s = Flag b) rows → (index < length rows)%nat →
  toggleRow index rows = <[index := Flag (negb (selected rows index))]> rows.
Proof.
  intros Hb Hin. unfold toggleRow. rewrite spread_booleans by done.
  unfold assign. by rewrite bool_decide_eq_true_2.
Qed.

Lemma count_from (rows : list slot) (a : Z) :
  Forall (λ s, ∃ b, s = Flag b) rows →
  foldl (λ total s,
           match s with
           | Hole => total
           | Undefined => None
           | Flag b => (λ t, t + (if b then 1 else 0)) <$> total
           end) (Some a) rows =
  Some (a + Z.of_nat (length (filter (λ s, s = Flag true) rows))).
Proof.
  intros Hb. revert a. induction Hb as [|s rows [b ->] _ IH]; intros a.
  - simpl. f_equal. lia.
  - simpl. rewrite IH. rewrite filter_cons. destruct b.
    + rewrite decide_True by done. simpl. f_equal. lia.
    + rewrite decide_False by done. f_equal. lia.
Qed.

Lemma count_insert (rows : list slot) (index : nat) (b : bool) :
  lookup index rows = Some (Flag b) →
  Z.of_nat (length (filter (λ s, s = Flag true)
                      (<[index := Flag (negb b)]> rows))) =
  Z.of_nat (length (filter (λ s, s = Flag true) rows))
  + (if b then -1 else 1).
Proof.
  revert index. induction rows as [|s rows IH]; intros [|index] Hl;
    try done; simpl in Hl.
  - injection Hl as ->. simpl. rewrite !filter_cons.
    destruct b; simpl; repeat case_decide; try done; simpl; lia.
  - simpl. rewrite !filter_cons. specialize (IH index Hl).
    destruct (decide (s = Flag true)); simpl; lia.
Qed.

Lemma filter_ext_in {A : Type} (P Q : A → Prop)
    `{!∀ x, Decision (P x)} `{!∀ x, Decision (Q x)} (l : list A) :
  (∀ x, x ∈ l → P x ↔ Q x) → filter P l = filter Q l.
Proof.
  induction l as [|a l IH]; intros Hpq; [done|].
  rewrite !filter_cons.
  assert (P a ↔ Q a) as Ha by (apply Hpq; left).
  assert (filter P l = filter Q l) as ->.
  { apply IH. intros x Hx. apply Hpq. by right. }
  destruct (decide (P a)), (decide (Q a)); tauto.
Qed.

Lemma count_selected (rows : list slot) :
  Forall (λ s, ∃ b, s = Flag b) rows →
  length (filter (λ s, s = Flag true) rows) =
  length (filter (λ j, selected rows j = true) (seq 0 (length rows))).
Proof.
  induction rows as [|s rows IH] using rev_ind; intros Hb; [done|].
  apply Forall_app in Hb as [Hb Hs].
  apply Forall_singleton in Hs as [b ->].
  rewrite length_app. simpl length. rewrite Nat.add_1_r, seq_S.
  rewrite !filter_app, !length_app. f_equal.
  - rewrite (IH Hb). f_equal. apply filter_ext_in.
    intros j Hj. apply elem_of_seq in Hj. unfold selected.
    rewrite lookup_app_l by lia. done.
  - simpl. rewrite !filter_cons, !filter_nil. unfold selected.
    rewrite list_lookup_middle by done.
    destruct b.
    + by rewrite !decide_True by done.
    + by rewrite !decide_False by done.
Qed.

Section List.

Variable Demo : Type.
Variable birthtime : Demo → Z.
Variable filesize : Demo → Z.
Variable name : Demo → string.
Variable encodeURIComponent : string → string.

Lemma insert_demo_perm (x : Demo) (sorted : list Demo) :
  insert_demo Demo birthtime x sorted ≡ₚ x :: sorted.
Proof.
  induction sorted as [|y rest IH]; simpl; [done|].
  destruct (birthtime y <=? birthtime x); [done|].
  rewrite IH. apply Permutation_swap.
Qed.

Lemma sortedDemos_perm (demos : list Demo) :
  sortedDemos Demo birthtime demos ≡ₚ demos.
Proof.
  induction demos as [|x demos IH]; simpl; [done|].
  rewrite insert_demo_perm. by rewrite IH.
Qed.

Lemma insert_demo_sorted (x : Demo) (sorted : list Demo) :
  Sorted.StronglySorted (λ a b, birthtime b <= birthtime a) sorted →
  Sorted.StronglySorted (λ a b, birthtime b <= birthtime a)
    (insert_demo Demo birthtime x sorted).
Proof.
  induction 1 as [|y rest Hs IH Hall]; simpl.
  - repeat constructor.
  - destruct (birthtime y <=? birthtime x) eqn:Hle.
    + apply Z.leb_le in Hle. constructor; [by constructor|].
      constructor; [done|].
      eapply Forall_impl; [exact Hall|]. simpl. intros; lia.
    + apply Z.leb_gt in Hle. constructor; [done|].
      rewrite insert_demo_perm. constructor; [lia|done].
Qed.

Lemma insert_demo_filter (t : Z) (x : Demo) (sorted : list Demo) :
  filter (λ d, birthtime d = t) (insert_demo Demo birthtime x sorted) =
  filter (λ d, birthtime d = t) (x :: sorted).
Proof.
  induction sorted as [|y rest IH]; simpl; [done|].
  destruct (birthtime y <=? birthtime x) eqn:Hle; [done|].
  apply Z.leb_gt in Hle.
  rewrite (filter_cons _ y), IH, !filter_cons.
  repeat case_decide; solve [done | lia].
Qed.

(** X20 - [sortedDemos] is the demos of the directory rearranged with
    the most recently created first, and demos created at the same time
    keep the order they had in [demos]. *)
Theorem sortedDemos_newest_first (demos : list Demo) :
  sortedDemos Demo birthtime demos ≡ₚ demos ∧
  Sorted.StronglySorted (λ a b, birthtime b <= birthtime a)
    (sortedDemos Demo birthtime demos) ∧
  ∀ t, filter (λ d, birthtime d = t) (sortedDemos Demo birthtime demos) =
       filter (λ d, birthtime d = t) demos.
Proof.
  split; [apply sortedDemos_perm|]. split.
  - induction demos as [|x demos IH]; simpl; [constructor|].
    by apply insert_demo_sorted.
  - intros t. induction demos as [|x demos IH]; simpl; [done|].
    rewrite insert_demo_filter, !filter_cons. by rewrite IH.
Qed.

Lemma total_from (a : Z) (sorted : list Demo) :
  foldl (λ total demo, total + filesize demo) a sorted =
  a + foldr (λ demo total, filesize demo + total) 0 sorted.
Proof.
  revert a. induction sorted as [|d sorted IH]; intros a; simpl; [lia|].
  rewrite IH. lia.
Qed.

Lemma total_perm (l1 l2 : list Demo) :
  l1 ≡ₚ l2 →
  foldr (λ demo total, filesize demo + total) 0 l1 =
  foldr (λ demo total, filesize demo + total) 0 l2.
Proof. induction 1; simpl; lia. Qed.

Lemma selected_from_bounds (rows : list slot) (index : nat) (total : Z)
    (sorted : list Demo) :
  Forall (λ d, 0 <= filesize d) sorted →
  total <= selected_from Demo filesize rows index total sorted
        <= foldl (λ total demo, total + filesize demo) total sorted.
Proof.
  intros Hpos. revert index total.
  induction Hpos as [|d sorted Hd _ IH]; intros index total; simpl; [lia|].
  destruct (selected rows index).
  - specialize (IH (S index) (total + filesize d)). lia.
  - specialize (IH (S index) total).
    rewrite total_from in IH |- *. lia.
Qed.

(** X21 - The total size shown under the list does not depend on the
    order: it is the sum of the sizes of [demos].  When no size is
    negative, the size of the selection lies between 0 and that total,
    whatever [selectedRows] holds. *)
Theorem selectedFileSize_bounds (demos : list Demo) (rows : list slot) :
  Forall (λ d, 0 <= filesize d) demos →
  totalFileSize Demo filesize (sortedDemos Demo birthtime demos) =
    totalFileSize Demo filesize demos ∧
  0 <= selectedFileSize Demo filesize (sortedDemos Demo birthtime demos) rows
    <= totalFileSize Demo filesize demos.
Proof.
  intros Hpos.
  assert (totalFileSize Demo filesize (sortedDemos Demo birthtime demos) =
          totalFileSize Demo filesize demos) as Htotal.
  { unfold totalFileSize. rewrite !total_from. f_equal.
    apply total_perm, sortedDemos_perm. }
  split; [done|]. rewrite <- Htotal. apply selected_from_bounds.
  by rewrite sortedDemos_perm.
Qed.

Lemma selected_from_ext (rows rows' : list slot) (index : nat) (total : Z)
    (sorted : list Demo) :
  (∀ j, (index ≤ j)%nat → selected rows' j = selected rows j) →
  selected_from Demo filesize rows' index total sorted =
  selected_from Demo filesize rows index total sorted.
Proof.
  revert index total. induction sorted as [|d sorted IH];
    intros index total Hsame; simpl; [done|].
  rewrite Hsame by lia. apply IH. intros j Hj. apply Hsame. lia.
Qed.

Lemma selected_from_shift (rows : list slot) (index : nat) (total : Z)
    (sorted : list Demo) :
  selected_from Demo filesize rows index total sorted =
  total + selected_from Demo filesize rows index 0 sorted.
Proof.
  revert index total. induction sorted as [|d sorted IH];
    intros index total; simpl; [lia|].
  rewrite IH. rewrite (IH _ (if selected rows index then _ else _)).
  destruct (selected rows index); lia.
Qed.

Lemma selected_from_toggle (rows rows' : list slot) (index i : nat)
    (total : Z) (sorted : list Demo) (demo : Demo) :
  (∀ j, selected rows' j =
        if decide (j = index) then negb (selected rows j)
        else selected rows j) →
  (i ≤ index)%nat →
  sorted !! (index - i)%nat = Some demo →
  selected_from Demo filesize rows' i total sorted =
  selected_from Demo filesize rows i total sorted
  + (if selected rows index then - filesize demo else filesize demo).
Proof.
  intros Hsel. revert i total.
  induction sorted as [|d sorted IH]; intros i total Hi Hl; [done|].
  simpl. destruct (decide (i = index)) as [->|Hne].
  - rewrite Nat.sub_diag in Hl. injection Hl as ->.
    rewrite (selected_from_ext rows rows').
    2:{ intros j Hj. rewrite Hsel. by rewrite decide_False by lia. }
    rewrite Hsel. rewrite decide_True by done.
    rewrite selected_from_shift.
    rewrite (selected_from_shift _ _ (if selected rows index then _ else _)).
    destruct (selected rows index); simpl; lia.
  - rewrite Hsel. rewrite decide_False by done.
    apply IH; [lia|].
    replace (index - i)%nat with (S (index - S i)) in Hl by lia. done.
Qed.

(** X22 - In selection mode a click on a row of the list, with
    [selectedRows] an array of booleans as the reset leaves it, flips
    that row and no other: the array keeps its length and stays an
    array of booleans, and a second click on the same row restores it. *)
Theorem handleRowClick_flips (sorted : list Demo) (rows : list slot)
    (index : nat) :
  Forall (λ s, ∃ b, s = Flag b) rows →
  (index < length rows)%nat →
  ∃ rows',
    handleRowClick Demo name encodeURIComponent true sorted rows index =
      Ok (Rows rows') ∧
    length rows' = length rows ∧
    Forall (λ s, ∃ b, s = Flag b) rows' ∧
    (∀ j, selected rows' j =
          if decide (j = index) then negb (selected rows j)
          else selected rows j) ∧
    handleRowClick Demo name encodeURIComponent true sorted rows' index =
      Ok (Rows rows).
Proof.
  intros Hb Hin. eexists. split; [reflexivity|].
  rewrite toggleRow_booleans by done.
  assert (Forall (λ s, ∃ b, s = Flag b)
            (<[index := Flag (negb (selected rows index))]> rows)) as Hb'.
  { apply Forall_insert; eauto. }
  repeat split.
  - by rewrite length_insert.
  - done.
  - intros j. rewrite selected_insert by done.
    by destruct (decide (j = index)) as [->|].
  - simpl. f_equal. f_equal.
    rewrite toggleRow_booleans by (by rewrite ?length_insert).
    rewrite selected_insert by done. rewrite decide_True by done.
    rewrite negb_involutive, list_insert_insert_eq.
    apply list_insert_id. unfold selected.
    destruct (lookup_lt_is_Some_2 rows index Hin) as [s Hs].
    rewrite Hs. destruct (proj1 (Forall_lookup _ _) Hb index s Hs) as [b ->].
    done.
Qed.

(** X23 - The counters follow the click: with one flag per row, all
    booleans, the number of selected demos is a number (never NaN) and
    goes up or down by one, and the selected size goes up or down by the
    size of the demo of the clicked row. *)
Theorem handleRowClick_counts (sorted : list Demo) (rows : list slot)
    (index : nat) (demo : Demo) :
  Forall (λ s, ∃ b, s = Flag b) rows →
  length rows = length sorted →
  sorted !! index = Some demo →
  ∃ rows' (count : Z),
    handleRowClick Demo name encodeURIComponent true sorted rows index =
      Ok (Rows rows') ∧
    selectedDemoCount rows = Some count ∧
    selectedDemoCount rows' =
      Some (if selected rows index then count - 1 else count + 1) ∧
    selectedFileSize Demo filesize sorted rows' =
      selectedFileSize Demo filesize sorted rows
      + (if selected rows index then - filesize demo else filesize demo).
Proof.
  intros Hb Hlen Hdemo.
  assert (index < length rows)%nat as Hin.
  { rewrite Hlen. by eapply lookup_lt_Some. }
  destruct (lookup_lt_is_Some_2 rows index Hin) as [s Hs].
  destruct (proj1 (Forall_lookup _ _) Hb index s Hs) as [b ->].
  assert (selected rows index = b) as Hsel by (unfold selected; by rewrite Hs).
  eexists _, _. split; [reflexivity|].
  rewrite toggleRow_booleans by done.
  unfold selectedDemoCount. rewrite !count_from; try done.
  2:{ apply Forall_insert; eauto. }
  split; [reflexivity|]. split.
  - rewrite Hsel. rewrite (count_insert _ _ _ Hs). f_equal.
    destruct b; lia.
  - unfold selectedFileSize. apply selected_from_toggle.
    + intros j. rewrite selected_insert by done.
      by destruct (decide (j = index)) as [->|].
    + lia.
    + by rewrite Nat.sub_0_r.
Qed.

Lemma reset_booleans (n : nat) :
  Forall (λ s, ∃ b, s = Flag b) (reset n).
Proof. apply Forall_replicate. eauto. Qed.

Lemma selected_reset (n j : nat) : selected (reset n) j = false.
Proof.
  unfold selected, reset.
  destruct (replicate n (Flag false) !! j) as [s|] eqn:Hs; [|done].
  apply lookup_replicate in Hs as [-> _]. done.
Qed.

(** X24 - From the reset, after any clicks on rows of the list in
    selection mode, [selectedRows] still has one boolean per row, a row
    is selected exactly when it was clicked an odd number of times, and
    the count shown is the number of selected rows. *)
Theorem selection_after_clicks (n : nat) (clicks : list nat) :
  Forall (λ index, (index < n)%nat) clicks →
  let rows := foldl (λ rows index, toggleRow index rows) (reset n) clicks in
  length rows = n ∧
  Forall (λ s, ∃ b, s = Flag b) rows ∧
  (∀ j, selected rows j =
        Nat.odd (length (filter (λ index, index = j) clicks))) ∧
  selectedDemoCount rows =
    Some (Z.of_nat (length (filter (λ j, selected rows j = true) (seq 0 n)))).
Proof.
  intros Hin. simpl.
  assert (∀ rows0 : list slot,
    length rows0 = n → Forall (λ s, ∃ b, s = Flag b) rows0 →
    let rows := foldl (λ rows index, toggleRow index rows) rows0 clicks in
    length rows = n ∧ Forall (λ s, ∃ b, s = Flag b) rows ∧
    ∀ j, selected rows j =
         xorb (selected rows0 j)
              (Nat.odd (length (filter (λ index, index = j) clicks)))) as Hgen.
  { induction Hin as [|index clicks Hindex _ IH]; intros rows0 Hlen Hb; simpl.
    - repeat split; try done. intros j. by rewrite xorb_false_r.
    - rewrite toggleRow_booleans by (done || lia).
      destruct (IH (<[index := Flag (negb (selected rows0 index))]> rows0))
        as (Hl & Hf & Hs).
      { by rewrite length_insert. }
      { apply Forall_insert; eauto. }
      repeat split; try done.
      intros j. rewrite Hs. rewrite selected_insert by lia.
      rewrite filter_cons. destruct (decide (j = index)) as [->|Hne].
      + rewrite decide_True by done. simpl length.
        rewrite Nat.odd_succ, <- Nat.negb_odd.
        by destruct (selected rows0 index), (Nat.odd _).
      + by rewrite decide_False by done. }
  destruct (Hgen (reset n)) as (Hl & Hf & Hs).
  { apply length_replicate. }
  { apply reset_booleans. }
  repeat split; try done.
  - intros j. rewrite Hs, selected_reset. by destruct (Nat.odd _).
  - unfold selectedDemoCount. rewrite count_from by done. f_equal.
    rewrite Z.add_0_l. f_equal.
    rewrite count_selected by done. by rewrite Hl.
Qed.

End List.

(** X21 on three demos given as pairs of a creation time and a size. *)
Lemma selectedFileSize_bounds_witness :
  totalFileSize (Z * Z) snd (sortedDemos (Z * Z) fst [(10, 300); (30, 100); (20, 200)])
    = totalFileSize (Z * Z) snd [(10, 300); (30, 100); (20, 200)] ∧
  0 <= selectedFileSize (Z * Z) snd
         (sortedDemos (Z * Z) fst [(10, 300); (30, 100); (20, 200)])
         [Flag true; Flag false; Flag true]
    <= totalFileSize (Z * Z) snd [(10, 300); (30, 100); (20, 200)].
Proof.
  apply (selectedFileSize_bounds (Z * Z) fst snd
           [(10, 300); (30, 100); (20, 200)]
           [Flag true; Flag false; Flag true]).
  repeat constructor; simpl; lia.
Defined.

(** X22 on a list of three rows, the second is clicked. *)
Lemma handleRowClick_flips_witness :
  ∃ rows',
    handleRowClick (Z * Z) (λ _, "demo") id true
      [(30, 100); (20, 200); (10, 300)] (reset 3) 1 = Ok (Rows rows') ∧
    length rows' = 3%nat ∧
    selected rows' 1 = true.
Proof.
  destruct (handleRowClick_flips (Z * Z) (λ _, "demo") id
              [(30, 100); (20, 200); (10, 300)] (reset 3) 1)
    as (rows' & Hclick & Hlen & _ & Hsel & _).
  - repeat constructor; by exists false.
  - simpl. lia.
  - exists rows'. split; [exact Hclick|]. split; [exact Hlen|].
    rewrite Hsel. reflexivity.
Defined.

(** X23 on the same list: one demo of 200 bytes is selected. *)
Lemma handleRowClick_counts_witness :
  ∃ rows',
    handleRowClick (Z * Z) (λ _, "demo") id true
      [(30, 100); (20, 200); (10, 300)] (reset 3) 1 = Ok (Rows rows') ∧
    selectedDemoCount rows' = Some 1 ∧
    selectedFileSize (Z * Z) snd [(30, 100); (20, 200); (10, 300)] rows' = 200.
Proof.
  destruct (handleRowClick_counts (Z * Z) snd (λ _, "demo") id
              [(30, 100); (20, 200); (10, 300)] (reset 3) 1 (20, 200))
    as (rows' & count & Hclick & Hcount & Hcount' & Hsize).
  - repeat constructor; by exists false.
  - reflexivity.
  - reflexivity.
  - exists rows'. split; [exact Hclick|].
    injection Hcount as <-. split; [exact Hcount'|exact Hsize].
Defined.

(** X24 on three rows and four clicks. *)
Lemma selection_after_clicks_witness :
  let rows := foldl (λ rows index, toggleRow index rows) (reset 3)
                [0; 2; 0; 1]%nat in
  length rows = 3%nat ∧
  Forall (λ s, ∃ b, s = Flag b) rows ∧
  (∀ j, selected rows j =
        Nat.odd (length (filter (λ index, index = j) [0; 2; 0; 1]%nat))) ∧
  selectedDemoCount rows =
    Some (Z.of_nat (length (filter (λ j, selected rows j = true) (seq 0 3)))).
Proof.
  apply (selection_after_clicks 3 [0; 2; 0; 1]%nat).
  repeat constructor.
Defined.
